(** * misconfig-configobfuscator: the redaction engine of [main.py]

    A shallow embedding of [ConfigObfuscator] (patterns, [load_config],
    [obfuscate_config] with its inner [obfuscate_value], [save_config]), of
    [setup_argparse] and of [main], followed by the properties of the
    specification checked against it.

    Conventions of the embedding.
    - A Python [str] is a [string]; each character stands for the code point
      of the same number (0..255).  Texts that hold a code point above 255
      are outside the embedding: on them [re.IGNORECASE] also lets [s]
      accept U+017F, [k] accept U+212A and [i] accept U+0130 and U+0131,
      and [\s] accepts the other Unicode spaces, so what is proved about
      the patterns is proved for texts of Latin-1 characters.
    - A parsed document is a finite tree of [None], [bool], [int], [str],
      [list] and [dict] nodes (floats, dates and binary scalars, which the
      engine passes through like numbers and of which [json.dump] rejects
      the last two, are left out).  A [dict] is the
      list of its items in insertion order; its keys are scalars.
      Sub-documents shared through YAML aliases are not represented: a
      document in which an alias makes a mapping or a sequence contain
      itself (on which the traversal ends in [RecursionError]), and a
      document nested more deeply than the recursion limit of the
      interpreter allows, are outside the embedding.  What is proved about
      the engine is proved for alias-free documents within that limit.
    - [obfuscate_config] updates [config] in place and returns it; the
      embedding returns the updated document.
    - An exception is an explicit [Raise] result.
    - The file system, the two parsers and the YAML emitter are parameters
      (class [Platform]); [json.dump] and the representer of [yaml.dump] are
      modelled after the libraries.  [json.dump] writes chunk by chunk and
      can raise in the middle of the output; a write can fail as well.
    - [program] is the script as it is started: [setup_argparse], then
      [parse_args] (a parameter: it returns the namespace or leaves with
      status 0 or 2), then the body of [main]. *)

From Stdlib Require Import ZArith Ascii String List Bool Lia DecimalString.
From stdpp Require Import base option list strings gmap sorting.

Local Open Scope list_scope.
Local Open Scope string_scope.

(* ===================================================================== *)
(** ** Exceptions *)
(* ===================================================================== *)

Inductive exn : Type :=
| TypeError        (* re.search on a subject that is not a str *)
| AttributeError.  (* config.items() on a root that is not a dict *)

Inductive result (A : Type) : Type :=
| Ok (a : A)
| Raise (e : exn).
Arguments Ok {A} a.
Arguments Raise {A} e.

Definition bind {A B} (r : result A) (k : A -> result B) : result B :=
  match r with
  | Ok a => k a
  | Raise e => Raise e
  end.

Notation "'let*' x ':=' r 'in' k" := (bind r (fun x => k))
  (at level 10, x name, r at level 100, k at level 200).

(** [[f x for x in l]]: elements are processed left to right and the first
    exception aborts the comprehension. *)
Definition map_result {A B} (f : A -> result B) : list A -> result (list B) :=
  fix go (l : list A) : result (list B) :=
    match l with
    | [] => Ok []
    | x :: t => let* y := f x in let* t' := go t in Ok (y :: t')
    end.

(* ===================================================================== *)
(** ** Regular expressions: the fragment of [re] used by [self.patterns] *)
(* ===================================================================== *)

Module Re.

Inductive regex : Type :=
| Void                        (* matches nothing (internal) *)
| Eps                         (* the empty pattern *)
| Chr (c : ascii)             (* a literal character *)
| Space                       (* \s *)
| Dot                         (* .  (no DOTALL: anything but a newline) *)
| Cat (r1 r2 : regex)
| Alt (r1 r2 : regex)         (* (internal, produced by derivatives) *)
| Star (r : regex)
| Group (r : regex).          (* ( ... ): capturing only *)

Definition code (c : ascii) : N := N_of_ascii c.

(** Case folding of [re.IGNORECASE] on the letters A-Z: the characters of
    the patterns are ASCII, and below code point 256 an ASCII letter has no
    other case variant than its upper or lower case form. *)
Definition lower (c : ascii) : ascii :=
  if (65 <=? code c)%N && (code c <=? 90)%N
  then ascii_of_N (code c + 32) else c.

(** [\s] on a [str] pattern: [str.isspace] of the character, for the code
    points below 256. *)
Definition is_space (c : ascii) : bool :=
  let n := code c in
  ((9 <=? n)%N && (n <=? 13)%N) || ((28 <=? n)%N && (n <=? 32)%N)
  || (n =? 133)%N || (n =? 160)%N.

Definition is_newline (c : ascii) : bool := (code c =? 10)%N.

Fixpoint nullable (r : regex) : bool :=
  match r with
  | Void => false
  | Eps => true
  | Chr _ => false
  | Space => false
  | Dot => false
  | Cat r1 r2 => nullable r1 && nullable r2
  | Alt r1 r2 => nullable r1 || nullable r2
  | Star _ => true
  | Group r => nullable r
  end.

(** Does the literal [a] of the pattern accept the character [c]?
    [icase] is the IGNORECASE flag. *)
Definition chr_matches (icase : bool) (a c : ascii) : bool :=
  if icase then Ascii.eqb (lower a) (lower c) else Ascii.eqb a c.

(** What is left of [r] after it has consumed the character [c]. *)
Fixpoint deriv (icase : bool) (c : ascii) (r : regex) : regex :=
  match r with
  | Void => Void
  | Eps => Void
  | Chr a => if chr_matches icase a c then Eps else Void
  | Space => if is_space c then Eps else Void
  | Dot => if is_newline c then Void else Eps
  | Cat r1 r2 =>
      if nullable r1
      then Alt (Cat (deriv icase c r1) r2) (deriv icase c r2)
      else Cat (deriv icase c r1) r2
  | Alt r1 r2 => Alt (deriv icase c r1) (deriv icase c r2)
  | Star r1 => Cat (deriv icase c r1) (Star r1)
  | Group r1 => deriv icase c r1
  end.

(** [re.match]: some prefix of [s] matches [r]. *)
Fixpoint match_prefix (icase : bool) (r : regex) (s : string) : bool :=
  nullable r ||
  match s with
  | EmptyString => false
  | String c s' => match_prefix icase (deriv icase c r) s'
  end.

(** [re.search(r, s)] is not None: a match starts at some position. *)
Fixpoint search (icase : bool) (r : regex) (s : string) : bool :=
  match_prefix icase r s ||
  match s with
  | EmptyString => false
  | String _ s' => search icase r s'
  end.

(** A literal word, character by character. *)
Fixpoint lit (w : string) : regex :=
  match w with
  | EmptyString => Eps
  | String c w' => Cat (Chr c) (lit w')
  end.

(** The strings a pattern matches in full: the reference against which
    [match_prefix] and [search] are checked below. *)
Inductive matches (icase : bool) : regex -> string -> Prop :=
| MEps : matches icase Eps ""
| MChr a c : chr_matches icase a c = true -> matches icase (Chr a) (String c "")
| MSpace c : is_space c = true -> matches icase Space (String c "")
| MDot c : is_newline c = false -> matches icase Dot (String c "")
| MCat r1 r2 s1 s2 :
    matches icase r1 s1 -> matches icase r2 s2 ->
    matches icase (Cat r1 r2) (s1 ++ s2)
| MAltL r1 r2 s : matches icase r1 s -> matches icase (Alt r1 r2) s
| MAltR r1 r2 s : matches icase r2 s -> matches icase (Alt r1 r2) s
| MStarNil r : matches icase (Star r) ""
| MStarCons r s1 s2 :
    matches icase r s1 -> matches icase (Star r) s2 ->
    matches icase (Star r) (s1 ++ s2)
| MGroup r s : matches icase r s -> matches icase (Group r) s.

(** [s] spells the word [w], letter case aside. *)
Fixpoint same_word (w s : string) : bool :=
  match w, s with
  | EmptyString, EmptyString => true
  | String a w', String c s' => chr_matches true a c && same_word w' s'
  | _, _ => false
  end.

(** [s] is white space only. *)
Fixpoint all_space (s : string) : bool :=
  match s with
  | EmptyString => true
  | String c s' => is_space c && all_space s'
  end.

End Re.

(* ===================================================================== *)
(** ** Documents *)
(* ===================================================================== *)

Inductive key : Type :=
| KStr (s : string)
| KInt (n : Z)
| KBool (b : bool)
| KNone.

Unset Elimination Schemes.
Inductive value : Type :=
| VNone
| VBool (b : bool)
| VInt (n : Z)
| VStr (s : string)
| VList (items : list value)
| VDict (entries : list (key * value)).
Set Elimination Schemes.

Abbreviation dict := (list (key * value)).

(** Structural induction that reaches the elements of lists and the values
    of dict entries. *)
Section value_ind.
Variable P : value -> Prop.
Hypothesis HNone : P VNone.
Hypothesis HBool : forall b, P (VBool b).
Hypothesis HInt : forall n, P (VInt n).
Hypothesis HStr : forall s, P (VStr s).
Hypothesis HList : forall l, Forall P l -> P (VList l).
Hypothesis HDict : forall d, Forall (fun kv => P (snd kv)) d -> P (VDict d).

Fixpoint value_ind (v : value) : P v :=
  match v with
  | VNone => HNone
  | VBool b => HBool b
  | VInt n => HInt n
  | VStr s => HStr s
  | VList l =>
      HList l
        (list_ind (Forall P) (Forall_nil_2 P)
                  (fun x t IH => Forall_cons_2 P x t (value_ind x) IH) l)
  | VDict d =>
      HDict d
        (list_ind (Forall (fun kv => P (snd kv)))
                  (Forall_nil_2 _)
                  (fun kv t IH =>
                     Forall_cons_2 (fun kv => P (snd kv)) kv t
                                   (value_ind (snd kv)) IH) d)
  end.
End value_ind.

(* ===================================================================== *)
(** ** ConfigObfuscator *)
(* ===================================================================== *)

Definition dq : ascii := "034"%char.

(** [(word\s*:).*] *)
Definition bare_pattern (word : string) : Re.regex :=
  Re.Cat (Re.Group (Re.Cat (Re.lit word)
                           (Re.Cat (Re.Star Re.Space) (Re.Chr ":"))))
         (Re.Star Re.Dot).

(** [(QwordQ\s*:).*], where Q is the double quote character *)
Definition quoted_pattern (word : string) : Re.regex :=
  Re.Cat (Re.Group (Re.Cat (Re.Chr dq)
                   (Re.Cat (Re.lit word)
                   (Re.Cat (Re.Chr dq)
                   (Re.Cat (Re.Star Re.Space) (Re.Chr ":"))))))
         (Re.Star Re.Dot).

(** [self.patterns], in the order of [__init__]. *)
Definition patterns : list Re.regex :=
  [ bare_pattern "password";
    bare_pattern "api_key";
    bare_pattern "secret";
    bare_pattern "token";
    bare_pattern "access_key";
    bare_pattern "credentials";
    quoted_pattern "password";
    quoted_pattern "api_key";
    quoted_pattern "secret";
    quoted_pattern "token";
    quoted_pattern "access_key";
    quoted_pattern "credentials" ].

(** The words the patterns are built from. *)
Definition words : list string :=
  ["password"; "api_key"; "secret"; "token"; "access_key"; "credentials"].

(** The text of a key occurrence: the word (letter case aside), optional
    white space and a colon; quoted occurrences have the word between double
    quote characters. *)
Definition bare_occurrence (word s : string) : Prop :=
  exists pre w ws post,
    s = pre ++ w ++ ws ++ ":" ++ post
    /\ Re.same_word word w = true /\ Re.all_space ws = true.

Definition quoted_occurrence (word s : string) : Prop :=
  exists pre w ws post,
    s = pre ++ String dq (w ++ String dq (ws ++ ":" ++ post))
    /\ Re.same_word word w = true /\ Re.all_space ws = true.

(** [re.search(pattern, subject, re.IGNORECASE)] as a truth value; a subject
    that is not a [str] raises [TypeError]. *)
Definition re_search (p : Re.regex) (subject : key) : result bool :=
  match subject with
  | KStr s => Ok (Re.search true p s)
  | _ => Raise TypeError
  end.

(** The loop [for pattern in pats: if re.search(pattern, subject, ...)]:
    does some pattern match?  The first match leaves the loop. *)
Fixpoint any_pattern (pats : list Re.regex) (subject : key) : result bool :=
  match pats with
  | [] => Ok false
  | p :: ps =>
      let* hit := re_search p subject in
      if hit then Ok true else any_pattern ps subject
  end.

(** The same loop on a subject known to be a [str] (no exception). *)
Definition is_sensitive (s : string) : bool :=
  existsb (fun p => Re.search true p s) patterns.

Arguments is_sensitive s : simpl never.

Section Engine.
Variable placeholder : string.

(** [obfuscate_value] is the inner closure (applied to list items);
    [obfuscate_entry k v] is the body of the loop of [obfuscate_config]
    for the item [(k, v)]: the new value of [config[k]]. *)
Fixpoint obfuscate_value (v : value) : result value :=
  match v with
  | VStr s =>
      let* hit := any_pattern patterns (KStr s) in
      Ok (if hit then VStr placeholder else v)
  | VDict d =>
      let* d' := map_result (fun kv =>
                   let* x := obfuscate_entry (fst kv) (snd kv) in
                   Ok (fst kv, x)) d in
      Ok (VDict d')
  | VList l =>
      let* l' := map_result obfuscate_value l in Ok (VList l')
  | _ => Ok v
  end
with obfuscate_entry (k : key) (v : value) : result value :=
  match v with
  | VStr s =>
      let* hit := any_pattern patterns k in
      Ok (if hit then VStr placeholder else v)
  | VDict d =>
      let* d' := map_result (fun kv =>
                   let* x := obfuscate_entry (fst kv) (snd kv) in
                   Ok (fst kv, x)) d in
      Ok (VDict d')
  | VList l =>
      let* l' := map_result obfuscate_value l in Ok (VList l')
  | _ => Ok v
  end.

(** [obfuscate_config(config)]: every item of [config], in order, gets its
    new value; the keys are kept. *)
Definition obfuscate_config (config : dict) : result dict :=
  map_result (fun kv => let* x := obfuscate_entry (fst kv) (snd kv) in
                        Ok (fst kv, x))
             config.

End Engine.

(* ===================================================================== *)
(** ** The engine as a total function with a failure condition *)
(* ===================================================================== *)

Definition is_str_key (k : key) : bool :=
  match k with KStr _ => true | _ => false end.

Definition is_str_value (v : value) : bool :=
  match v with VStr _ => true | _ => false end.

(** Does some pattern match the key?  (Only meaningful for [str] keys.) *)
Definition key_sensitive (k : key) : bool :=
  match k with KStr s => is_sensitive s | _ => false end.

(** Every key of every dict in the document is a [str]. *)
Fixpoint str_keys (v : value) : bool :=
  match v with
  | VList l => forallb str_keys l
  | VDict d => forallb (fun kv => is_str_key (fst kv) && str_keys (snd kv)) d
  | _ => true
  end.

(** Some dict reached by the traversal holds an item whose value is a [str]
    and whose key is not: the one place where a key is given to [re.search]. *)
Fixpoint unmatchable (v : value) : bool :=
  match v with
  | VList l => existsb unmatchable l
  | VDict d =>
      existsb (fun kv => (is_str_value (snd kv) && negb (is_str_key (fst kv)))
                         || unmatchable (snd kv)) d
  | _ => false
  end.

Definition unmatchable_entry (k : key) (v : value) : bool :=
  (is_str_value v && negb (is_str_key k)) || unmatchable v.

Section Redact.
Variable placeholder : string.

(** What [obfuscate_value] and the loop body return when nothing raises. *)
Fixpoint redact_value (v : value) : value :=
  match v with
  | VStr s => if is_sensitive s then VStr placeholder else v
  | VDict d => VDict (map (fun kv => (fst kv, redact_entry (fst kv) (snd kv))) d)
  | VList l => VList (map redact_value l)
  | _ => v
  end
with redact_entry (k : key) (v : value) : value :=
  match v with
  | VStr s => if key_sensitive k then VStr placeholder else v
  | VDict d => VDict (map (fun kv => (fst kv, redact_entry (fst kv) (snd kv))) d)
  | VList l => VList (map redact_value l)
  | _ => v
  end.

Definition redact_config (d : dict) : dict :=
  map (fun kv => (fst kv, redact_entry (fst kv) (snd kv))) d.
End Redact.

(** The shape of a document: its nesting, keys and list lengths, with the
    scalars erased. *)
Unset Elimination Schemes.
Inductive shape : Type :=
| SScalar
| SSeq (items : list shape)
| SMap (entries : list (key * shape)).
Set Elimination Schemes.

Fixpoint shape_of (v : value) : shape :=
  match v with
  | VList l => SSeq (map shape_of l)
  | VDict d => SMap (map (fun kv => (fst kv, shape_of (snd kv))) d)
  | _ => SScalar
  end.

(* ===================================================================== *)
(** ** The serializers called by [save_config] *)
(* ===================================================================== *)

Definition nl : ascii := "010"%char.

Fixpoint spaces (n : nat) : string :=
  match n with
  | O => ""
  | S m => String " " (spaces m)
  end.

(** [json.dump(config, f, indent=2)]: the encoder of the standard library
    with its defaults ([ensure_ascii=True], [sort_keys=False], separators
    [","] and [": "] once an indent is given). *)
Module Json.

Definition hex_digit (n : N) : ascii :=
  if (n <? 10)%N then ascii_of_N (48 + n) else ascii_of_N (87 + n).

(** [ESCAPE_ASCII] with [ESCAPE_DCT]. *)
Definition escape_char (c : ascii) : string :=
  let n := Re.code c in
  if (n =? 34)%N then String "\" (String dq "")
  else if (n =? 92)%N then "\\"
  else if (n =? 8)%N then "\b"
  else if (n =? 12)%N then "\f"
  else if (n =? 10)%N then "\n"
  else if (n =? 13)%N then "\r"
  else if (n =? 9)%N then "\t"
  else if (32 <=? n)%N && (n <=? 126)%N then String c ""
  else "\u00" ++ String (hex_digit (n / 16)) (String (hex_digit (n mod 16)) "").

Fixpoint escape (s : string) : string :=
  match s with
  | EmptyString => ""
  | String c s' => escape_char c ++ escape s'
  end.

(** [encode_basestring_ascii] *)
Definition encode_str (s : string) : string :=
  String dq (escape s ++ String dq "").

(** [int.__repr__] *)
Definition int_repr (n : Z) : string :=
  DecimalString.NilZero.string_of_int (Z.to_int n).

(** A dict key as the text that is then encoded like a [str]. *)
Definition key_text (k : key) : string :=
  match k with
  | KStr s => s
  | KBool true => "true"
  | KBool false => "false"
  | KNone => "null"
  | KInt n => int_repr n
  end.

(** ['\n' + _indent * _current_indent_level] *)
Definition newline_indent (indent level : nat) : string :=
  String nl (spaces (indent * level)).

(** [_iterencode], the chunks joined; [level] is [_current_indent_level].
    The items of a dict are visited in the order of [dct.items()]. *)
Fixpoint encode (indent level : nat) (v : value) : string :=
  match v with
  | VStr s => encode_str s
  | VNone => "null"
  | VBool true => "true"
  | VBool false => "false"
  | VInt n => int_repr n
  | VList [] => "[]"
  | VList l =>
      "[" ++ newline_indent indent (S level)
      ++ String.concat ("," ++ newline_indent indent (S level))
                       (map (encode indent (S level)) l)
      ++ newline_indent indent level ++ "]"
  | VDict [] => "{}"
  | VDict d =>
      "{" ++ newline_indent indent (S level)
      ++ String.concat ("," ++ newline_indent indent (S level))
           (map (fun kv => encode_str (key_text (fst kv)) ++ ": "
                           ++ encode indent (S level) (snd kv)) d)
      ++ newline_indent indent level ++ "}"
  end.

Definition dumps (indent : nat) (v : value) : string := encode indent 0 v.

End Json.

(** [json.dump] as it runs: the text written chunk by chunk, and whether the
    encoder finished.  [int.__repr__] raises [ValueError] for an integer of
    more than [limit] decimal digits ([sys.get_int_max_str_digits()], 4300
    unless configured; 0 means no limit); the chunks written before stay in
    the file. *)
Module JsonDump.

Definition stream : Type := string * bool.

Definition emit (s : string) : stream := (s, true).

(** an exception: nothing more is written *)
Definition raised : stream := ("", false).

Definition andthen (x y : stream) : stream :=
  if snd x then (fst x ++ fst y, snd y) else x.

(** The number of decimal digits of [n]. *)
Definition digits (n : Z) : nat := String.length (Json.int_repr (Z.abs n)).

(** [_intstr(n)], or [None] for the [ValueError]. *)
Definition intstr (limit : nat) (n : Z) : option string :=
  if (limit =? 0)%nat || (digits n <=? limit)%nat
  then Some (Json.int_repr n) else None.

(** The text of a dict key, before it is encoded like a [str]. *)
Definition keystr (limit : nat) (k : key) : option string :=
  match k with
  | KInt n => intstr limit n
  | _ => Some (Json.key_text k)
  end.

(** The loop over the items of a list or dict: [step x buf] writes the item
    [x] after [buf], which is [opening] for the first item and [separator]
    for the others. *)
Definition items {A} (opening separator : string)
           (step : A -> string -> stream) : bool -> list A -> stream :=
  fix go (first : bool) (l : list A) : stream :=
    match l with
    | [] => emit ""
    | x :: t =>
        andthen (step x (if first then opening else separator)) (go false t)
    end.

(** [_iterencode(v, level)] *)
Fixpoint iterencode (limit indent level : nat) (v : value) : stream :=
  match v with
  | VStr s => emit (Json.encode_str s)
  | VNone => emit "null"
  | VBool true => emit "true"
  | VBool false => emit "false"
  | VInt n =>
      match intstr limit n with
      | Some text => emit text
      | None => raised
      end
  | VList [] => emit "[]"
  | VList l =>
      let inner := Json.newline_indent indent (S level) in
      andthen
        (items ("[" ++ inner) ("," ++ inner)
           (fun x buf =>
              match x with
              | VInt n =>
                  (* yield buf + _intstr(value) *)
                  match intstr limit n with
                  | Some text => emit (buf ++ text)
                  | None => raised
                  end
              | _ => andthen (emit buf) (iterencode limit indent (S level) x)
              end)
           true l)
        (emit (Json.newline_indent indent level ++ "]"))
  | VDict [] => emit "{}"
  | VDict d =>
      let inner := Json.newline_indent indent (S level) in
      andthen (emit ("{" ++ inner))
        (andthen
           (items "" ("," ++ inner)
              (fun kv buf =>
                 match keystr limit (fst kv) with
                 | None => raised
                 | Some k =>
                     andthen (emit (buf ++ Json.encode_str k ++ ": "))
                             (iterencode limit indent (S level) (snd kv))
                 end)
              true d)
           (emit (Json.newline_indent indent level ++ "}")))
  end.

(** [json.dump(v, f, indent=indent)] *)
Definition dump (limit indent : nat) (v : value) : stream :=
  iterencode limit indent 0 v.

(** The message of the [ValueError]. *)
Definition limit_message (limit : nat) : string :=
  "Exceeds the limit (" ++ Json.int_repr (Z.of_nat limit)
  ++ " digits) for integer string conversion; "
  ++ "use sys.set_int_max_str_digits() to increase the limit".

(** No integer of the document, value or key, is beyond the limit. *)
Fixpoint fits (limit : nat) (v : value) : bool :=
  match v with
  | VInt n => match intstr limit n with Some _ => true | None => false end
  | VList l => forallb (fits limit) l
  | VDict d =>
      forallb (fun kv => match keystr limit (fst kv) with
                         | Some _ => fits limit (snd kv)
                         | None => false
                         end) d
  | _ => true
  end.

End JsonDump.

(** [yaml.dump(config, f, indent=2)]: the representer builds the node tree
    that the emitter then writes node by node.  With [sort_keys] (true
    unless the caller passes [sort_keys=False]), [represent_mapping] takes
    [sorted(mapping.items())], and keeps the dict order when the keys cannot
    be compared with each other ([TypeError]). *)
Module Yaml.

Definition default_sort_keys : bool := true.

Definition is_num_key (k : key) : bool :=
  match k with KInt _ | KBool _ => true | _ => false end.

Definition num_of_key (k : key) : Z :=
  match k with
  | KInt n => n
  | KBool true => 1
  | _ => 0
  end.

(** [sorted] succeeds when all keys are [str] or all are numbers. *)
Definition comparable (ks : list key) : bool :=
  forallb is_str_key ks || forallb is_num_key ks.

(** [a <= b] on keys: code point order on [str], numeric order on numbers
    (continued across the kinds so that it is total; only used on
    comparable keys). *)
Definition key_leb (a b : key) : bool :=
  match a, b with
  | KStr x, KStr y => String.leb x y
  | KStr _, _ => false
  | _, KStr _ => true
  | KNone, _ => true
  | _, KNone => false
  | _, _ => (num_of_key a <=? num_of_key b)%Z
  end.

Definition entry_le (x y : key * value) : Prop :=
  key_leb (fst x) (fst y) = true.

#[global] Instance entry_le_dec x y : Decision (entry_le x y).
Proof. unfold entry_le. apply _. Defined.

Definition sort_items (d : dict) : dict :=
  if comparable (map fst d) then merge_sort entry_le d else d.

(** The node tree of [v]; the items of each mapping node are in the
    order in which they are emitted. *)
Fixpoint represent (sort_keys : bool) (v : value) : value :=
  match v with
  | VList l => VList (map (represent sort_keys) l)
  | VDict d =>
      let nodes := map (fun kv => (fst kv, represent sort_keys (snd kv))) d in
      VDict (if sort_keys then sort_items nodes else nodes)
  | _ => v
  end.

End Yaml.

(** The keys of a mapping, in order. *)
Definition keys_of (v : value) : list key :=
  match v with
  | VDict d => map fst d
  | _ => []
  end.

(* ===================================================================== *)
(** ** The platform: file system, parsers and the YAML emitter *)
(* ===================================================================== *)

Inductive read_result : Type :=
| ReadOk (content : string)
| FileNotFound                     (* FileNotFoundError *)
| ReadFailed (msg : string).       (* any other exception *)

Inductive parse_result : Type :=
| Parsed (v : value)
| Malformed                        (* yaml.YAMLError / json.JSONDecodeError *)
| ParserRaised (msg : string).     (* any other exception *)

Inductive open_result (W : Type) : Type :=
| Opened (w : W)                   (* the file exists and is empty *)
| OpenFailed (msg : string).
Arguments Opened {W} w.
Arguments OpenFailed {W} msg.

Inductive dump_result : Type :=
| Dumped (text : string)
| DumpFailed (written msg : string). (* raised after writing [written] *)

Class Platform : Type := {
  world : Type;
  (** [os.path.exists(path)] *)
  path_exists : world -> string -> bool;
  (** [open(path, 'r')] followed by [f.read()] *)
  read_text : world -> string -> read_result;
  (** [open(path, 'w')] *)
  open_write : world -> string -> open_result world;
  (** the text written to the opened file, which is then closed: the files
      afterwards, and the message of the exception if writing or closing
      raised one *)
  write_text : world -> string -> string -> world * option string;
  (** [sys.get_int_max_str_digits()]: 4300 unless configured, 0 for no
      limit *)
  int_max_str_digits : nat;
  (** [yaml.safe_load(text)] *)
  yaml_safe_load : string -> parse_result;
  (** [json.loads(text)] *)
  json_loads : string -> parse_result;
  (** the emitter of [yaml.dump], given [indent] and the node tree *)
  yaml_emit : nat -> value -> dump_result;
}.

Inductive level : Type := DEBUG | INFO | WARNING | ERROR.

Abbreviation log := (list (level * string)).

(** A record reaches the log when its level is enabled: the root logger is
    at INFO, or at DEBUG with [--debug]. *)
Definition logging (debug : bool) (lv : level) (msg : string) : log :=
  match lv with
  | DEBUG => if debug then [(lv, msg)] else []
  | _ => [(lv, msg)]
  end.

(** [s.endswith(suffix)] *)
Definition endswith (s suffix : string) : bool :=
  let n := String.length s in
  let m := String.length suffix in
  (m <=? n)%nat && String.eqb (substring (n - m) m s) suffix.

(** [bool(v)] *)
Definition truthy (v : value) : bool :=
  match v with
  | VNone => false
  | VBool b => b
  | VInt n => negb (n =? 0)%Z
  | VStr s => negb (String.eqb s "")
  | VList l => match l with [] => false | _ => true end
  | VDict d => match d with [] => false | _ => true end
  end.

(** [obfuscate_config] applied to whatever [load_config] returned:
    [config.items()] exists on a dict only. *)
Definition obfuscate_document (placeholder : string) (config : value)
  : result value :=
  match config with
  | VDict d => let* d' := obfuscate_config placeholder d in Ok (VDict d')
  | _ => Raise AttributeError
  end.

Record args : Type := {
  input_file : string;
  output_file : option string;
  placeholder : string;
  debug : bool;
}.

(** [self.output_file = output_file if output_file else input_file] *)
Definition target (a : args) : string :=
  match output_file a with
  | Some o => if String.eqb o "" then input_file a else o
  | None => input_file a
  end.

Inductive outcome : Type :=
| Return (code : Z)                (* main returned [code] *)
| Uncaught (e : exn).              (* an exception left main *)

(** The exit status of the process after [exit(main())]. *)
Definition exit_code (o : outcome) : Z :=
  match o with
  | Return c => c
  | Uncaught _ => 1
  end.

Section Program.
Context {P : Platform}.
Variable a : args.

Definition say := logging (debug a).

(** [load_config]: the loaded document, or [None]. *)
Definition load_config (w : world) : value * log :=
  let f := input_file a in
  match read_text w f with
  | ReadOk content =>
      match yaml_safe_load content with
      | Parsed config =>
          (config, say INFO ("Successfully loaded " ++ f ++ " as YAML."))
      | ParserRaised e =>
          (VNone, say ERROR ("An unexpected error occurred while loading "
                             ++ f ++ ": " ++ e))
      | Malformed =>
          let l1 := say DEBUG (f ++ " is not valid YAML.  Attempting JSON parsing.") in
          match json_loads content with
          | Parsed config =>
              (config, (l1 ++ say INFO ("Successfully loaded " ++ f ++ " as JSON."))%list)
          | Malformed =>
              (VNone, (l1 ++ say ERROR ("Failed to load " ++ f
                                        ++ " as either YAML or JSON."))%list)
          | ParserRaised e =>
              (VNone, (l1 ++ say ERROR ("An unexpected error occurred while loading "
                                        ++ f ++ ": " ++ e))%list)
          end
      end
  | FileNotFound => (VNone, say ERROR ("File not found: " ++ f))
  | ReadFailed e =>
      (VNone, say ERROR ("An unexpected error occurred while loading "
                         ++ f ++ ": " ++ e))
  end.

(** [self.output_file.endswith(('.yaml', '.yml'))] *)
Definition yaml_target : bool :=
  endswith (target a) ".yaml" || endswith (target a) ".yml".

Definition save_failed (e : string) : log :=
  say ERROR ("Failed to save configuration to " ++ target a ++ ": " ++ e).

(** The end of a [with open(...) as f:] block inside the [try]: [written]
    is what [write_text] returned, [raised] the exception of the dump, if
    any.  The block succeeds when nothing raised; an exception at closing
    replaces the one of the dump. *)
Definition closing (written : world * option string) (raised : option string)
           (done : log) : bool * world * log :=
  match snd written, raised with
  | Some e, _ => (false, fst written, save_failed e)
  | None, Some e => (false, fst written, save_failed e)
  | None, None => (true, fst written, done)
  end.

(** [with open(self.output_file, 'w') as f: yaml.dump(config, f, indent=2)] *)
Definition write_yaml (w : world) (config : value) (done : log)
  : bool * world * log :=
  match open_write w (target a) with
  | OpenFailed e => (false, w, save_failed e)
  | Opened w1 =>
      match yaml_emit 2 (Yaml.represent Yaml.default_sort_keys config) with
      | Dumped text => closing (write_text w1 (target a) text) None done
      | DumpFailed written e =>
          closing (write_text w1 (target a) written) (Some e) done
      end
  end.

(** [with open(self.output_file, 'w') as f: json.dump(config, f, indent=2)] *)
Definition write_json (w : world) (config : value) (done : log)
  : bool * world * log :=
  match open_write w (target a) with
  | OpenFailed e => (false, w, save_failed e)
  | Opened w1 =>
      let out := JsonDump.dump int_max_str_digits 2 config in
      closing (write_text w1 (target a) (fst out))
              (if snd out then None
               else Some (JsonDump.limit_message int_max_str_digits))
              done
  end.

(** [save_config]: was the document saved? *)
Definition save_config (w : world) (config : value) : bool * world * log :=
  let out := target a in
  if yaml_target then
    write_yaml w config
      (say INFO ("Successfully saved obfuscated config to " ++ out ++ " as YAML."))
  else if endswith out ".json" then
    write_json w config
      (say INFO ("Successfully saved obfuscated config to " ++ out ++ " as JSON."))
  else
    let warn := say WARNING ("Unknown file extension for " ++ out
                             ++ ". Attempting to save as YAML.") in
    let '(ok, w', l) := write_yaml w config [] in
    (ok, w', (warn ++ l)%list).

Definition show_option (o : option string) : string :=
  match o with Some s => s | None => "None" end.

(** [main], from the line after [args = parser.parse_args()] on: [a] is
    the namespace that [parse_args] returned.  [program] below is the whole
    of [main], command line included. *)
Definition main (w : world) : outcome * world * log :=
  let l0 := (say DEBUG ("Input file: " ++ input_file a)
             ++ say DEBUG ("Output file: " ++ show_option (output_file a))
             ++ say DEBUG ("Placeholder: " ++ placeholder a))%list in
  if negb (path_exists w (input_file a)) then
    (Return 1, w,
     (l0 ++ say ERROR ("Error: Input file '" ++ input_file a
                       ++ "' does not exist."))%list)
  else
    let '(config, l1) := load_config w in
    if truthy config then
      match obfuscate_document (placeholder a) config with
      | Raise e => (Uncaught e, w, (l0 ++ l1)%list)
      | Ok obfuscated_config =>
          let '(ok, w', l2) := save_config w obfuscated_config in
          if ok then
            (Return 0, w',
             (l0 ++ l1 ++ l2
              ++ say INFO "Configuration obfuscation completed successfully.")%list)
          else (Return 1, w', (l0 ++ l1 ++ l2)%list)
      end
    else (Return 1, w, (l0 ++ l1)%list).

End Program.

(** [setup_argparse]: the parser, as the list of the arguments it is given. *)
Inductive arg_action : Type := Store | StoreTrue.

Record argument : Type := {
  flags : list string;
  action : arg_action;
  default_value : option string;
  help : string;
}.

Record arg_parser : Type := {
  description : string;
  arguments : list argument;
}.

Definition setup_argparse : arg_parser := {|
  description := "Redacts sensitive data in configuration files.";
  arguments :=
    [ {| flags := ["input_file"]; action := Store; default_value := None;
         help := "Path to the input configuration file." |};
      {| flags := ["-o"; "--output_file"]; action := Store;
         default_value := None;
         help := "Path to the output file.  If not specified, overwrites the input file." |};
      {| flags := ["-p"; "--placeholder"]; action := Store;
         default_value := Some "<REDACTED>";
         help := "Placeholder string to replace sensitive data with (default: <REDACTED>)." |};
      {| flags := ["-d"; "--debug"]; action := StoreTrue;
         default_value := None; help := "Enable debug logging." |} ];
|}.

(** What [parser.parse_args()] does with the command line: it returns the
    namespace, or it leaves the program through [SystemExit], with status 0
    after printing the help ([-h]) and with status 2 after a usage error. *)
Inductive parsed : Type :=
| Namespace (a : args)
| HelpExit
| UsageExit.

(** [exit(main())]: the exit status of the process, the files and the log.
    [parse_args] is the command line parser of [argparse]. *)
Definition program {P : Platform}
           (parse_args : arg_parser -> list string -> parsed)
           (argv : list string) (w : world) : Z * world * log :=
  match parse_args setup_argparse argv with
  | Namespace a =>
      let r := main a w in (exit_code (fst (fst r)), snd (fst r), snd r)
  | HelpExit => (0%Z, w, [])
  | UsageExit => (2%Z, w, [])
  end.

(** A small platform to run the program on: files are a finite map from
    paths to contents, a path that ends in a slash cannot be opened for
    writing, the parsers know the texts listed in [docs], and the emitter
    writes flow style. *)
Definition lookup_doc (docs : list (string * value)) (text : string)
  : parse_result :=
  match find (fun d => String.eqb (fst d) text) docs with
  | Some d => Parsed (snd d)
  | None => Malformed
  end.

Definition sim (docs : list (string * value)) : Platform := {|
  world := gmap string string;
  path_exists w p := bool_decide (is_Some (w !! p));
  read_text w p := match w !! p with
                   | Some c => ReadOk c
                   | None => FileNotFound
                   end;
  open_write w p := if endswith p "/" then OpenFailed "Is a directory"
                    else Opened (<[p := ""]> w);
  write_text w p text := (<[p := text]> w, None);
  int_max_str_digits := 4300;
  yaml_safe_load := lookup_doc docs;
  json_loads := fun _ => Malformed;
  yaml_emit indent v := Dumped (Json.encode indent 0 v);
|}.

(* ===================================================================== *)
(** ** Notions used in the further properties *)
(* ===================================================================== *)

(** [s] with the letters A-Z in lower case. *)
Fixpoint fold_case (s : string) : string :=
  match s with
  | EmptyString => ""
  | String c s' => String (Re.lower c) (fold_case s')
  end.


Section Texts.
Variable p : string -> bool.

(** Every subject that the engine gives to [re.search] on its way through
    the document is a [str] that satisfies [p]: the string elements of lists
    ([texts_value], as for [obfuscate_value]) and the keys of the string
    values of dicts ([texts_entry], as for the loop of [obfuscate_config]). *)
Fixpoint texts_value (v : value) : bool :=
  match v with
  | VStr s => p s
  | VDict d => forallb (fun kv => texts_entry (fst kv) (snd kv)) d
  | VList l => forallb texts_value l
  | _ => true
  end
with texts_entry (k : key) (v : value) : bool :=
  match v with
  | VStr _ => match k with KStr s => p s | _ => false end
  | VDict d => forallb (fun kv => texts_entry (fst kv) (snd kv)) d
  | VList l => forallb texts_value l
  | _ => true
  end.

Definition texts_config (d : dict) : bool :=
  forallb (fun kv => texts_entry (fst kv) (snd kv)) d.
End Texts.

(** [v'] is [v] except that some of its strings have become [ph]: the keys,
    the order, the lengths and every scalar that is not a string are the
    same. *)
Unset Elimination Schemes.
Inductive redaction_of (ph : string) : value -> value -> Prop :=
| RKept v : redaction_of ph v v
| RPlaceholder s : redaction_of ph (VStr s) (VStr ph)
| RList l l' :
    Forall2 (redaction_of ph) l l' -> redaction_of ph (VList l) (VList l')
| RDict d d' :
    Forall2 (fun kv kv' => fst kv = fst kv'
                           /\ redaction_of ph (snd kv) (snd kv')) d d' ->
    redaction_of ph (VDict d) (VDict d').
Set Elimination Schemes.

Definition is_dict (v : value) : bool :=
  match v with VDict _ => true | _ => false end.

Definition is_error (r : level * string) : bool :=
  match fst r with ERROR => true | _ => false end.

(** The number of records at level ERROR. *)
Definition error_count (l : log) : nat := length (List.filter is_error l).

Definition is_debug (r : level * string) : bool :=
  match fst r with DEBUG => true | _ => false end.

(** The log without its DEBUG records. *)
Definition without_debug (l : log) : log :=
  List.filter (fun r => negb (is_debug r)) l.

(** The same arguments with [--debug] given or not. *)
Definition with_debug (b : bool) (a : args) : args :=
  {| input_file := input_file a; output_file := output_file a;
     placeholder := placeholder a; debug := b |}.

(** A text that no pattern matches. *)
Definition calm (s : string) : bool := negb (is_sensitive s).

(* ===================================================================== *)
(** ** Sample inputs *)
(* ===================================================================== *)

Definition redacted : string := "<REDACTED>".

Definition sample_config : dict :=
  [ (KStr "db", VDict [(KStr "password:", VStr "hunter2");
                       (KStr "host", VStr "localhost");
                       (KStr "port", VInt 5432)]);
    (KStr "notes", VList [VStr "secret: abc"; VStr "normal text"; VNone;
                          VDict [(KStr "Token :", VStr "t")]]);
    (KStr "debug", VBool false) ].

Definition run_args : args :=
  {| input_file := "conf.yaml"; output_file := None;
     placeholder := redacted; debug := false |}.

Definition json_args : args :=
  {| input_file := "conf.yaml"; output_file := Some "out.json";
     placeholder := redacted; debug := false |}.

Definition plain_config : dict :=
  [ (KStr "username", VStr "alice"); (KStr "count", VInt 42);
    (KStr "active", VBool true);
    (KStr "password", VStr "hunter2");
    (KStr "hosts", VList [VStr "a.example"; VDict [(KInt 1, VNone)]]) ].


Definition slash_args : args :=
  {| input_file := "conf.yaml"; output_file := Some "out/";
     placeholder := redacted; debug := false |}.

(** A document whose keys are not in sorted order, and the same with the
    keys sorted. *)
Definition zone_host : value :=
  VDict [(KStr "zone", VStr "eu"); (KStr "host", VStr "localhost")].

Definition host_zone : value :=
  VDict [(KStr "host", VStr "localhost"); (KStr "zone", VStr "eu")].

(** A mapping with an integer of 4301 digits (the parser table of [sim]
    stands for a text that loads it, such as a hexadecimal literal). *)
Definition huge_config : value := VDict [(KStr "n", VInt (10 ^ 4300))].

(** [s] between double quotes. *)
Definition quoted (s : string) : string := String dq (s ++ String dq "").

(* ===================================================================== *)
(** ** The matcher against the reference semantics *)
(* ===================================================================== *)

Import Re.

Lemma append_nil_inv (s1 s2 : string) : s1 ++ s2 = "" -> s1 = "" /\ s2 = "".
Proof. destruct s1; cbn; [auto|discriminate]. Qed.

Lemma append_cons_inv (s1 s2 s : string) (c : ascii) :
  s1 ++ s2 = String c s ->
  (s1 = "" /\ s2 = String c s)
  \/ exists s1', s1 = String c s1' /\ s = s1' ++ s2.
Proof.
  destruct s1 as [|c' s1']; cbn; [auto|].
  intros [= -> <-]. right. eauto.
Qed.

Lemma nullable_matches icase (r : regex) :
  nullable r = true <-> matches icase r "".
Proof.
  split.
  - induction r; cbn; intros H; try discriminate.
    + constructor.
    + apply andb_prop in H as [H1 H2].
      change "" with ("" ++ ""). constructor; auto.
    + apply orb_prop in H as [H|H]; [apply MAltL|apply MAltR]; auto.
    + constructor.
    + constructor. auto.
  - intros H. remember "" as s eqn:Hs.
    induction H as [| a c' Ha | c' Hc | c' Hc | r1 r2 s1 s2 H1 IH1 H2 IH2
                   | r1 r2 s0 H1 IH1 | r1 r2 s0 H2 IH2 | r0
                   | r0 s1 s2 H1 IH1 H2 IH2 | r0 s0 H0 IH0];
      cbn [nullable]; try discriminate; try reflexivity.
    + apply append_nil_inv in Hs as [-> ->].
      rewrite IH1, IH2; reflexivity.
    + rewrite IH1; [reflexivity|assumption].
    + rewrite IH2; [apply orb_true_r|assumption].
    + auto.
Qed.

Lemma deriv_complete icase (c : ascii) (r : regex) (s : string) :
  matches icase r (String c s) -> matches icase (deriv icase c r) s.
Proof.
  intros H. remember (String c s) as cs eqn:Hcs. revert s Hcs.
  induction H as [| a c' Ha | c' Hc | c' Hc | r1 r2 s1 s2 H1 IH1 H2 IH2
                 | r1 r2 s0 H1 IH1 | r1 r2 s0 H2 IH2 | r0
                 | r0 s1 s2 H1 IH1 H2 IH2 | r0 s0 H0 IH0];
    intros s Hcs; cbn [deriv]; try discriminate.
  - injection Hcs as -> <-. rewrite Ha. constructor.
  - injection Hcs as -> <-. rewrite Hc. constructor.
  - injection Hcs as -> <-. rewrite Hc. constructor.
  - apply append_cons_inv in Hcs as [[-> ->]|(s1' & -> & ->)].
    + rewrite (proj2 (nullable_matches icase r1) H1).
      apply MAltR. apply IH2. reflexivity.
    + specialize (IH1 s1' eq_refl).
      destruct (nullable r1); [apply MAltL|]; constructor; assumption.
  - apply MAltL. auto.
  - apply MAltR. auto.
  - apply append_cons_inv in Hcs as [[-> ->]|(s1' & -> & ->)].
    + apply IH2. reflexivity.
    + constructor; [apply IH1; reflexivity|assumption].
  - auto.
Qed.

Lemma deriv_sound icase (c : ascii) (r : regex) (s : string) :
  matches icase (deriv icase c r) s -> matches icase r (String c s).
Proof.
  revert s. induction r as [| | a | | | r1 IH1 r2 IH2 | r1 IH1 r2 IH2
                            | r1 IH1 | r1 IH1]; intros s H; cbn [deriv] in H.
  - inversion H.
  - inversion H.
  - destruct (chr_matches icase a c) eqn:Ha; inversion H; subst.
    constructor. exact Ha.
  - destruct (is_space c) eqn:Hc; inversion H; subst. constructor. exact Hc.
  - destruct (is_newline c) eqn:Hc; inversion H; subst. constructor. exact Hc.
  - destruct (nullable r1) eqn:Hn.
    + inversion H as [| | | | | ? ? ? HL | ? ? ? HR | | |]; subst.
      * inversion HL as [| | | | ? ? s1 s2 Ha Hb | | | | |]; subst.
        change (String c (s1 ++ s2)) with (String c s1 ++ s2).
        constructor; auto.
      * change (String c s) with ("" ++ String c s).
        constructor; [apply nullable_matches; exact Hn|auto].
    + inversion H as [| | | | ? ? s1 s2 Ha Hb | | | | |]; subst.
      change (String c (s1 ++ s2)) with (String c s1 ++ s2).
      constructor; auto.
  - inversion H; subst; [apply MAltL|apply MAltR]; auto.
  - inversion H as [| | | | ? ? s1 s2 Ha Hb | | | | |]; subst.
    change (String c (s1 ++ s2)) with (String c s1 ++ s2).
    apply MStarCons; auto.
  - constructor. apply IH1. exact H.
Qed.

Lemma match_prefix_spec icase (r : regex) (s : string) :
  match_prefix icase r s = true <->
  exists s1 s2, s = s1 ++ s2 /\ matches icase r s1.
Proof.
  revert r. induction s as [|c s IH]; intros r; cbn [match_prefix].
  - rewrite orb_false_r, (nullable_matches icase). split.
    + intros H. exists "", "". split; [reflexivity|exact H].
    + intros (s1 & s2 & Hs & H). symmetry in Hs.
      apply append_nil_inv in Hs as [-> _]. exact H.
  - rewrite orb_true_iff, (nullable_matches icase), IH. split.
    + intros [H|(s1 & s2 & -> & H)].
      * exists "", (String c s). split; [reflexivity|exact H].
      * exists (String c s1), s2. split; [reflexivity|].
        apply deriv_sound, H.
    + intros (s1 & s2 & Hs & H). destruct s1 as [|c' s1].
      * left. exact H.
      * right. cbn in Hs. injection Hs as <- ->.
        exists s1, s2. split; [reflexivity|]. apply deriv_complete, H.
Qed.

Lemma search_spec icase (r : regex) (s : string) :
  search icase r s = true <->
  exists s0 s1 s2, s = s0 ++ s1 ++ s2 /\ matches icase r s1.
Proof.
  induction s as [|c s IH]; cbn [search].
  - rewrite orb_false_r, match_prefix_spec. split.
    + intros (s1 & s2 & Hs & H). exists "", s1, s2.
      split; [exact Hs|exact H].
    + intros (s0 & s1 & s2 & Hs & H). symmetry in Hs.
      apply append_nil_inv in Hs as [-> Hs].
      exists s1, s2. split; [symmetry; exact Hs|exact H].
  - rewrite orb_true_iff, match_prefix_spec, IH. split.
    + intros [(s1 & s2 & Hs & H)|(s0 & s1 & s2 & -> & H)].
      * exists "", s1, s2. split; [exact Hs|exact H].
      * exists (String c s0), s1, s2. split; [reflexivity|exact H].
    + intros (s0 & s1 & s2 & Hs & H). destruct s0 as [|c' s0].
      * left. exists s1, s2. split; [exact Hs|exact H].
      * right. cbn in Hs. injection Hs as <- ->.
        exists s0, s1, s2. split; [reflexivity|exact H].
Qed.

(* ===================================================================== *)
(** ** Reading of the patterns *)
(* ===================================================================== *)

Lemma matches_lit (w s : string) :
  matches true (lit w) s <-> same_word w s = true.
Proof.
  revert s. induction w as [|a w IH]; intros s; cbn [lit].
  - split.
    + intros H. inversion H. reflexivity.
    + destruct s; [constructor|discriminate].
  - split.
    + intros H. inversion H as [| | | | ? ? s1 s2 Ha Hb | | | | |]; subst.
      inversion Ha; subst. cbn. apply andb_true_intro. split; [assumption|].
      apply IH. exact Hb.
    + destruct s as [|c s]; cbn; [discriminate|].
      intros H. apply andb_prop in H as [Hc Hw].
      change (String c s) with (String c "" ++ s).
      constructor; [constructor; exact Hc|apply IH; exact Hw].
Qed.

Lemma matches_spaces icase (s : string) :
  matches icase (Star Space) s <-> all_space s = true.
Proof.
  split.
  - intros H. remember (Star Space) as r eqn:Hr.
    induction H as [| a c' Ha | c' Hc | c' Hc | r1 r2 s1 s2 H1 IH1 H2 IH2
                   | r1 r2 s0 H1 IH1 | r1 r2 s0 H2 IH2 | r0
                   | r0 s1 s2 H1 IH1 H2 IH2 | r0 s0 H0 IH0];
      try discriminate.
    + reflexivity.
    + injection Hr as ->. inversion H1; subst. cbn.
      apply andb_true_intro. split; [assumption|]. apply IH2. reflexivity.
  - induction s as [|c s IH]; cbn; intros H; [constructor|].
    apply andb_prop in H as [Hc Hs].
    change (String c s) with (String c "" ++ s).
    constructor; [constructor; exact Hc|apply IH; exact Hs].
Qed.

Lemma colon_only (c : ascii) : chr_matches true ":" c = true -> c = ":"%char.
Proof.
  destruct c as [[] [] [] [] [] [] [] []]; vm_compute; intros H;
    first [reflexivity | discriminate].
Qed.

Lemma dq_only (c : ascii) : chr_matches true dq c = true -> c = dq.
Proof.
  destruct c as [[] [] [] [] [] [] [] []]; vm_compute; intros H;
    first [reflexivity | discriminate].
Qed.

Lemma append_nil_r_aux (x : string) : x ++ "" = x.
Proof.
  induction x as [|c x IH]; [reflexivity|].
  change (String c (x ++ "") = String c x). f_equal. exact IH.
Qed.

Lemma string_app_assoc (x y z : string) : (x ++ y) ++ z = x ++ (y ++ z).
Proof.
  induction x as [|c x IH]; [reflexivity|].
  change (String c ((x ++ y) ++ z) = String c (x ++ (y ++ z))).
  f_equal. exact IH.
Qed.

Lemma bare_pattern_search (word s : string) :
  search true (bare_pattern word) s = true <-> bare_occurrence word s.
Proof.
  rewrite search_spec. unfold bare_pattern, bare_occurrence. split.
  - intros (s0 & s1 & s2 & -> & H).
    inversion H as [| | | | ? ? sa sb Ha Hb | | | | |]; subst.
    inversion Ha as [| | | | | | | | | ? ? Hg]; subst.
    inversion Hg as [| | | | ? ? w t Hw Ht | | | | |]; subst.
    inversion Ht as [| | | | ? ? ws cs Hws Hc | | | | |]; subst.
    inversion Hc as [| ? c Hcc | | | | | | | |]; subst.
    apply colon_only in Hcc as ->.
    exists s0, w, ws, (sb ++ s2). split.
    + rewrite !string_app_assoc. reflexivity.
    + split; [apply matches_lit; exact Hw|apply matches_spaces in Hws; exact Hws].
  - intros (pre & w & ws & post & -> & Hw & Hws).
    exists pre, (w ++ ws ++ ":"), post. split.
    + rewrite !string_app_assoc. reflexivity.
    + replace (w ++ ws ++ ":") with ((w ++ ws ++ ":") ++ "")
        by apply append_nil_r_aux.
      constructor; [|constructor]. constructor.
      constructor; [apply matches_lit; exact Hw|].
      constructor; [apply matches_spaces; exact Hws|].
      constructor. reflexivity.
Qed.

Lemma quoted_pattern_search (word s : string) :
  search true (quoted_pattern word) s = true <-> quoted_occurrence word s.
Proof.
  rewrite search_spec. unfold quoted_pattern, quoted_occurrence. split.
  - intros (s0 & s1 & s2 & -> & H).
    inversion H as [| | | | ? ? sa sb Ha Hb | | | | |]; subst.
    inversion Ha as [| | | | | | | | | ? ? Hg]; subst.
    inversion Hg as [| | | | ? ? q1 t1 Hq1 Ht1 | | | | |]; subst.
    inversion Hq1 as [| ? c1 Hc1 | | | | | | | |]; subst.
    apply dq_only in Hc1 as ->.
    inversion Ht1 as [| | | | ? ? w t2 Hw Ht2 | | | | |]; subst.
    inversion Ht2 as [| | | | ? ? q2 t3 Hq2 Ht3 | | | | |]; subst.
    inversion Hq2 as [| ? c2 Hc2 | | | | | | | |]; subst.
    apply dq_only in Hc2 as ->.
    inversion Ht3 as [| | | | ? ? ws cs Hws Hc | | | | |]; subst.
    inversion Hc as [| ? c Hcc | | | | | | | |]; subst.
    apply colon_only in Hcc as ->.
    exists s0, w, ws, (sb ++ s2). split.
    + f_equal. rewrite !string_app_assoc.
      change (String dq "" ++ w ++ String dq "" ++ ws ++ ":" ++ sb ++ s2)
        with (String dq (w ++ String dq "" ++ ws ++ ":" ++ sb ++ s2)).
      reflexivity.
    + split; [apply matches_lit; exact Hw|apply matches_spaces in Hws; exact Hws].
  - intros (pre & w & ws & post & -> & Hw & Hws).
    exists pre, (String dq "" ++ w ++ String dq "" ++ ws ++ ":"), post. split.
    + f_equal. rewrite !string_app_assoc. reflexivity.
    + replace (String dq "" ++ w ++ String dq "" ++ ws ++ ":")
        with ((String dq "" ++ w ++ String dq "" ++ ws ++ ":") ++ "")
        by apply append_nil_r_aux.
      constructor; [|constructor]. constructor.
      constructor; [constructor; reflexivity|].
      constructor; [apply matches_lit; exact Hw|].
      constructor; [constructor; reflexivity|].
      constructor; [apply matches_spaces; exact Hws|].
      constructor. reflexivity.
Qed.

Lemma patterns_by_word :
  patterns = (map bare_pattern words ++ map quoted_pattern words)%list.
Proof. reflexivity. Qed.

(** A string is sensitive exactly when it holds an occurrence of one of the
    six words followed by a colon. *)
Lemma is_sensitive_spec (s : string) :
  is_sensitive s = true <->
  exists word, In word words
               /\ (bare_occurrence word s \/ quoted_occurrence word s).
Proof.
  unfold is_sensitive. rewrite patterns_by_word, existsb_app, orb_true_iff.
  rewrite !existsb_exists. split.
  - intros [(p & Hp & Hs)|(p & Hp & Hs)]; apply in_map_iff in Hp as (w & <- & Hw);
      exists w; split; try exact Hw.
    + left. apply bare_pattern_search, Hs.
    + right. apply quoted_pattern_search, Hs.
  - intros (w & Hw & [H|H]); [left|right].
    + exists (bare_pattern w). split; [apply in_map, Hw|].
      apply bare_pattern_search, H.
    + exists (quoted_pattern w). split; [apply in_map, Hw|].
      apply quoted_pattern_search, H.
Qed.

(** No pattern matches a text without a colon. *)
Lemma sensitive_has_colon (s : string) :
  is_sensitive s = true -> exists pre post, s = pre ++ ":" ++ post.
Proof.
  intros H. apply is_sensitive_spec in H as (w & _ & [H|H]).
  - destruct H as (pre & w' & ws & post & -> & _).
    exists (pre ++ w' ++ ws), post. rewrite !string_app_assoc. reflexivity.
  - destruct H as (pre & w' & ws & post & -> & _).
    exists (pre ++ String dq (w' ++ String dq ws)), post.
    rewrite !string_app_assoc. f_equal.
    change (String dq (w' ++ String dq ws) ++ ":" ++ post)
      with (String dq ((w' ++ String dq ws) ++ ":" ++ post)).
    f_equal. rewrite string_app_assoc. reflexivity.
Qed.

(* ===================================================================== *)
(** ** Lemmas on the error monad *)
(* ===================================================================== *)

Lemma map_result_cases {A B} (f : A -> result B) (bad : A -> bool)
      (g : A -> B) (e : exn) (l : list A) :
  Forall (fun x => f x = if bad x then Raise e else Ok (g x)) l ->
  map_result f l = if existsb bad l then Raise e else Ok (map g l).
Proof.
  induction 1 as [|x t Hx _ IH]; [reflexivity|].
  cbn [map_result existsb map]. fold (map_result f). rewrite Hx.
  destruct (bad x); cbn; [reflexivity|].
  rewrite IH. destruct (existsb bad t); reflexivity.
Qed.

Lemma map_result_Forall2 {A B} (f : A -> result B) (l : list A) (l' : list B) :
  map_result f l = Ok l' <-> Forall2 (fun x y => f x = Ok y) l l'.
Proof.
  revert l'. induction l as [|x t IH]; intros l'; cbn [map_result].
  - split.
    + intros [= <-]. constructor.
    + intros H. inversion H. reflexivity.
  - fold (map_result f). split.
    + destruct (f x) as [y|] eqn:Hx; cbn; [|discriminate].
      destruct (map_result f t) as [t'|] eqn:Ht; cbn; [|discriminate].
      intros [= <-]. constructor; [exact Hx|]. apply IH. reflexivity.
    + intros H. inversion H as [|? y ? t' Hx Ht]; subst.
      rewrite Hx. cbn. apply IH in Ht. rewrite Ht. reflexivity.
Qed.

Lemma map_result_lookup {A B} (f : A -> result B) (l : list A) (l' : list B)
      (i : nat) (x : A) :
  map_result f l = Ok l' -> l !! i = Some x ->
  exists y, l' !! i = Some y /\ f x = Ok y.
Proof.
  intros H Hi. apply map_result_Forall2 in H.
  destruct (Forall2_lookup_l _ _ _ _ _ H Hi) as (y & Hy & Hf). eauto.
Qed.

Lemma map_result_length {A B} (f : A -> result B) (l : list A) (l' : list B) :
  map_result f l = Ok l' -> length l' = length l.
Proof.
  intros H. apply map_result_Forall2 in H.
  symmetry. eapply Forall2_length, H.
Qed.

(* ===================================================================== *)
(** ** Lemmas on pattern matching *)
(* ===================================================================== *)

Lemma any_pattern_str (pats : list Re.regex) (s : string) :
  any_pattern pats (KStr s) = Ok (existsb (fun p => Re.search true p s) pats).
Proof.
  induction pats as [|p ps IH]; [reflexivity|].
  cbn [any_pattern re_search bind existsb].
  destruct (Re.search true p s); [reflexivity|exact IH].
Qed.

Lemma any_pattern_key (k : key) :
  any_pattern patterns k =
  if is_str_key k then Ok (key_sensitive k) else Raise TypeError.
Proof.
  destruct k as [s| | |]; try reflexivity.
  apply any_pattern_str.
Qed.

(* ===================================================================== *)
(** ** Unfolding equations of the engine *)
(* ===================================================================== *)

Lemma obfuscate_value_dict ph d :
  obfuscate_value ph (VDict d) =
  let* d' := obfuscate_config ph d in Ok (VDict d').
Proof. reflexivity. Qed.

Lemma obfuscate_entry_dict ph k d :
  obfuscate_entry ph k (VDict d) =
  let* d' := obfuscate_config ph d in Ok (VDict d').
Proof. reflexivity. Qed.

Lemma obfuscate_value_list ph l :
  obfuscate_value ph (VList l) =
  let* l' := map_result (obfuscate_value ph) l in Ok (VList l').
Proof. reflexivity. Qed.

Lemma obfuscate_entry_list ph k l :
  obfuscate_entry ph k (VList l) =
  let* l' := map_result (obfuscate_value ph) l in Ok (VList l').
Proof. reflexivity. Qed.

Lemma obfuscate_value_str ph s :
  obfuscate_value ph (VStr s) =
  Ok (if is_sensitive s then VStr ph else VStr s).
Proof.
  cbn [obfuscate_value]. rewrite any_pattern_str. reflexivity.
Qed.

Lemma obfuscate_entry_str ph k s :
  obfuscate_entry ph k (VStr s) =
  if is_str_key k
  then Ok (if key_sensitive k then VStr ph else VStr s)
  else Raise TypeError.
Proof.
  cbn [obfuscate_entry]. rewrite any_pattern_key.
  destruct (is_str_key k); reflexivity.
Qed.

(** The engine returns [redact_*] unless it meets an unmatchable item, in
    which case it raises [TypeError]. *)
Lemma obfuscate_spec ph (v : value) :
  obfuscate_value ph v =
    (if unmatchable v then Raise TypeError else Ok (redact_value ph v))
  /\ forall k,
      obfuscate_entry ph k v =
        (if unmatchable_entry k v then Raise TypeError
         else Ok (redact_entry ph k v)).
Proof.
  induction v as [| b | n | s | l IH | d IH] using value_ind;
    try (split; reflexivity).
  - split; [apply obfuscate_value_str|].
    intros k. rewrite obfuscate_entry_str.
    unfold unmatchable_entry. cbn.
    destruct (is_str_key k); reflexivity.
  - assert (Hl : map_result (obfuscate_value ph) l =
                 if existsb unmatchable l then Raise TypeError
                 else Ok (map (redact_value ph) l)).
    { apply map_result_cases. eapply Forall_impl; [exact IH|].
      intros x [Hx _]. exact Hx. }
    split; [|intros k]; cbn [obfuscate_value obfuscate_entry];
      rewrite Hl;
      try change (unmatchable_entry k (VList l)) with (unmatchable (VList l));
      cbn; destruct (existsb unmatchable l); reflexivity.
  - assert (Hd : obfuscate_config ph d =
                 if unmatchable (VDict d) then Raise TypeError
                 else Ok (redact_config ph d)).
    { apply (map_result_cases _
               (fun kv => unmatchable_entry (fst kv) (snd kv))
               (fun kv => (fst kv, redact_entry ph (fst kv) (snd kv)))).
      eapply Forall_impl; [exact IH|].
      intros [k x] [_ Hx]. cbn [fst snd] in *. rewrite Hx.
      destruct (unmatchable_entry k x); reflexivity. }
    split; [rewrite obfuscate_value_dict|intros k; rewrite obfuscate_entry_dict];
      rewrite Hd;
      try change (unmatchable_entry k (VDict d)) with (unmatchable (VDict d));
      destruct (unmatchable (VDict d)); reflexivity.
Qed.

Lemma obfuscate_config_spec ph (d : dict) :
  obfuscate_config ph d =
  if unmatchable (VDict d) then Raise TypeError else Ok (redact_config ph d).
Proof.
  pose proof (proj1 (obfuscate_spec ph (VDict d))) as H.
  rewrite obfuscate_value_dict in H.
  change (redact_value ph (VDict d)) with (VDict (redact_config ph d)) in H.
  destruct (unmatchable (VDict d)), (obfuscate_config ph d);
    cbn [bind] in H; congruence.
Qed.

(* ===================================================================== *)
(** ** Properties of the returned document *)
(* ===================================================================== *)

Lemma map_eq_Forall {A B} (f g : A -> B) (l : list A) :
  Forall (fun x => f x = g x) l -> map f l = map g l.
Proof.
  induction 1 as [|x t Hx _ IH]; cbn; [reflexivity|]. rewrite Hx, IH.
  reflexivity.
Qed.

Lemma existsb_eq_Forall {A} (f g : A -> bool) (l : list A) :
  Forall (fun x => f x = g x) l -> existsb f l = existsb g l.
Proof.
  induction 1 as [|x t Hx _ IH]; cbn; [reflexivity|]. rewrite Hx, IH.
  reflexivity.
Qed.

Lemma existsb_map_comp {A B} (f : A -> B) (p : B -> bool) (l : list A) :
  existsb p (map f l) = existsb (fun x => p (f x)) l.
Proof.
  induction l as [|x t IH]; cbn; [reflexivity|]. rewrite IH. reflexivity.
Qed.

Lemma redact_keeps_kind ph (v : value) :
  is_str_value (redact_value ph v) = is_str_value v
  /\ forall k, is_str_value (redact_entry ph k v) = is_str_value v.
Proof.
  destruct v; cbn; split; try reflexivity; intros; try reflexivity.
  - destruct (is_sensitive s); reflexivity.
  - destruct (key_sensitive k); reflexivity.
Qed.

Lemma shape_redact ph (v : value) :
  shape_of (redact_value ph v) = shape_of v
  /\ forall k, shape_of (redact_entry ph k v) = shape_of v.
Proof.
  induction v as [| b | n | s | l IH | d IH] using value_ind;
    try (split; reflexivity).
  - split; [|intros k]; cbn.
    + destruct (is_sensitive s); reflexivity.
    + destruct (key_sensitive k); reflexivity.
  - assert (Hl : map shape_of (map (redact_value ph) l) = map shape_of l).
    { rewrite map_map. apply map_eq_Forall.
      eapply Forall_impl; [exact IH|]. intros x [Hx _]. exact Hx. }
    split; [|intros k]; cbn; rewrite Hl; reflexivity.
  - assert (Hd : map (fun kv => (fst kv, shape_of (snd kv)))
                     (redact_config ph d)
                 = map (fun kv => (fst kv, shape_of (snd kv))) d).
    { unfold redact_config. rewrite map_map. apply map_eq_Forall.
      eapply Forall_impl; [exact IH|]. intros [k x] [_ Hx]. cbn in *.
      rewrite Hx. reflexivity. }
    split; [|intros k]; cbn; fold (redact_config ph d); rewrite Hd;
      reflexivity.
Qed.

Lemma redact_idempotent ph (v : value) :
  redact_value ph (redact_value ph v) = redact_value ph v
  /\ forall k, redact_entry ph k (redact_entry ph k v) = redact_entry ph k v.
Proof.
  induction v as [| b | n | s | l IH | d IH] using value_ind;
    try (split; reflexivity).
  - split; [|intros k]; cbn.
    + destruct (is_sensitive s) eqn:Hs; cbn; [|rewrite Hs; reflexivity].
      destruct (is_sensitive ph); reflexivity.
    + destruct (key_sensitive k) eqn:Hk; cbn; rewrite Hk; reflexivity.
  - assert (Hl : map (redact_value ph) (map (redact_value ph) l)
                 = map (redact_value ph) l).
    { rewrite map_map. apply map_eq_Forall.
      eapply Forall_impl; [exact IH|]. intros x [Hx _]. exact Hx. }
    split; [|intros k]; cbn; rewrite Hl; reflexivity.
  - assert (Hd : redact_config ph (redact_config ph d) = redact_config ph d).
    { unfold redact_config. rewrite map_map. apply map_eq_Forall.
      eapply Forall_impl; [exact IH|]. intros [k x] [_ Hx]. cbn in *.
      rewrite Hx. reflexivity. }
    split; [|intros k]; cbn; fold (redact_config ph d);
      fold (redact_config ph (redact_config ph d)); rewrite Hd; reflexivity.
Qed.

Lemma unmatchable_redact ph (v : value) :
  unmatchable (redact_value ph v) = unmatchable v
  /\ forall k, unmatchable (redact_entry ph k v) = unmatchable v.
Proof.
  induction v as [| b | n | s | l IH | d IH] using value_ind;
    try (split; reflexivity).
  - split; [|intros k]; cbn.
    + destruct (is_sensitive s); reflexivity.
    + destruct (key_sensitive k); reflexivity.
  - assert (Hl : existsb unmatchable (map (redact_value ph) l)
                 = existsb unmatchable l).
    { rewrite existsb_map_comp. apply existsb_eq_Forall.
      eapply Forall_impl; [exact IH|]. intros x [Hx _]. exact Hx. }
    split; [|intros k]; cbn; rewrite Hl; reflexivity.
  - assert (Hd : unmatchable (VDict (redact_config ph d))
                 = unmatchable (VDict d)).
    { cbn. unfold redact_config. rewrite existsb_map_comp.
      apply existsb_eq_Forall.
      eapply Forall_impl; [exact IH|]. intros [k x] [_ Hx]. cbn in *.
      rewrite Hx. rewrite (proj2 (redact_keeps_kind ph x)). reflexivity. }
    split; [|intros k]; exact Hd.
Qed.

Lemma str_keys_matchable (v : value) :
  str_keys v = true -> unmatchable v = false.
Proof.
  induction v as [| b | n | s | l IH | d IH] using value_ind;
    try reflexivity; cbn; intros H.
  - induction IH as [|x t Hx _ IHt]; [reflexivity|]. cbn in *.
    apply andb_prop in H as [H1 H2]. rewrite (Hx H1), (IHt H2). reflexivity.
  - induction IH as [|[k x] t Hx _ IHt]; [reflexivity|]. cbn in *.
    apply andb_prop in H as [H1 H2]. apply andb_prop in H1 as [Hk H1].
    rewrite Hk, (Hx H1), (IHt H2). cbn. rewrite andb_false_r. reflexivity.
Qed.

(** A successful run returns the redacted document. *)
Lemma obfuscate_config_Ok ph (d r : dict) :
  obfuscate_config ph d = Ok r ->
  unmatchable (VDict d) = false /\ r = redact_config ph d.
Proof.
  rewrite obfuscate_config_spec.
  destruct (unmatchable (VDict d)); [discriminate|].
  intros [= <-]. split; reflexivity.
Qed.

Lemma obfuscate_config_total ph (d : dict) :
  str_keys (VDict d) = true ->
  obfuscate_config ph d = Ok (redact_config ph d).
Proof.
  intros H. rewrite obfuscate_config_spec, (str_keys_matchable _ H).
  reflexivity.
Qed.

(** What the loop body of [obfuscate_config] leaves at position [i]. *)
Lemma obfuscate_config_lookup ph (d r : dict) (i : nat) (k : key) (v : value) :
  obfuscate_config ph d = Ok r ->
  d !! i = Some (k, v) ->
  exists v', r !! i = Some (k, v') /\ obfuscate_entry ph k v = Ok v'.
Proof.
  intros Hr Hi. unfold obfuscate_config in Hr.
  destruct (map_result_lookup _ _ _ _ _ Hr Hi) as (y & Hy & Hf).
  cbn [fst snd] in Hf.
  destruct (obfuscate_entry ph k v) as [v'|] eqn:Hv; [|discriminate].
  injection Hf as <-. eauto.
Qed.

(** A key without a colon is never redacted. *)
Lemma colonless_key_is_kept ph (k s : string) :
  (forall pre post, k <> pre ++ ":" ++ post) ->
  obfuscate_entry ph (KStr k) (VStr s) = Ok (VStr s).
Proof.
  intros Hk. rewrite obfuscate_entry_str. cbn.
  destruct (is_sensitive k) eqn:Hs; [|reflexivity].
  apply sensitive_has_colon in Hs as (pre & post & ->).
  exfalso. exact (Hk pre post eq_refl).
Qed.

(** A [str] value under a [str] key: only the key decides, whatever the
    text of the value. *)
Lemma obfuscate_entry_ignores_text ph (k s : string) :
  obfuscate_entry ph (KStr k) (VStr s) =
  Ok (if is_sensitive k then VStr ph else VStr s).
Proof. rewrite obfuscate_entry_str. reflexivity. Qed.

(* ===================================================================== *)
(** ** Checks on concrete inputs *)
(* ===================================================================== *)

(** Letter case and white space before the colon do not matter; the colon
    does. *)
Example sensitive_keys :
  map is_sensitive
      ["password:"; "PASSWORD :"; "Db_Password" ++ String nl ":";
       "password"; "pass word:"; "api_key: 12"; "my token : x"]
  = [true; true; true; false; false; true; true].
Proof. vm_compute. reflexivity. Qed.

Example quoted_keys :
  map is_sensitive
      [String dq ("secret" ++ String dq ": x");
       String dq ("secret" ++ String dq " x")]
  = [true; false].
Proof. vm_compute. reflexivity. Qed.

Example endswith_suffixes :
  map (fun s => endswith s ".yaml")
      ["conf.yaml"; "yaml"; ".yaml"; "conf.yaml.bak"]
  = [true; false; true; false].
Proof. vm_compute. reflexivity. Qed.

Example json_layout :
  Json.dumps 2 (VList [VInt 1; VBool true; VList [VNone]; VList []; VInt (-5)])
  = "[" ++ String nl "  1," ++ String nl "  true," ++ String nl "  ["
    ++ String nl "    null" ++ String nl "  ]," ++ String nl "  [],"
    ++ String nl "  -5" ++ String nl "]".
Proof. vm_compute. reflexivity. Qed.

(** A run that redacts one entry and exits with 0. *)
Example run_redacts_and_exits_0 :
  let docs := [("'password:': hunter2",
                VDict [(KStr "password:", VStr "hunter2")])] in
  let '(o, w, _) :=
    @main (sim docs) json_args {["conf.yaml" := "'password:': hunter2"]} in
  o = Return 0
  /\ w !! "out.json"
     = Some (Json.dumps 2 (VDict [(KStr "password:", VStr redacted)]))
  /\ w !! "conf.yaml" = Some "'password:': hunter2".
Proof. vm_compute. repeat split; reflexivity. Qed.

(* ===================================================================== *)
(** ** The redaction engine: properties of the specification *)
(* ===================================================================== *)

(** C1 (the code departs from the specification).  On the mapping
    [{db: {password: hunter2, host: localhost}}] with the placeholder
    [<REDACTED>] the engine returns the document unchanged: the key
    [password] carries no colon, so no pattern matches it, and the value
    [hunter2] stays where the specification expects the placeholder. *)
Theorem C1_password_entry_survives :
  key_sensitive (KStr "password") = false
  /\ obfuscate_config redacted
       [(KStr "db", VDict [(KStr "password", VStr "hunter2");
                           (KStr "host", VStr "localhost")])]
     = Ok [(KStr "db", VDict [(KStr "password", VStr "hunter2");
                              (KStr "host", VStr "localhost")])].
Proof. split; vm_compute; reflexivity. Qed.

(** C2, as stated, fails: a key that does match a pattern ([password:])
    over a nested mapping does not have its value replaced; the engine
    walks into the mapping instead.  The mapping of the specification,
    [{password: {nested: value}}], is returned as it is. *)
Lemma C2_nested_mapping_is_traversed :
  key_sensitive (KStr "password:") = true
  /\ obfuscate_config redacted
       [(KStr "password:", VDict [(KStr "token:", VStr "value")])]
     = Ok [(KStr "password:", VDict [(KStr "token:", VStr redacted)])]
  /\ obfuscate_config redacted
       [(KStr "password:", VDict [(KStr "token:", VStr "value")])]
     <> Ok [(KStr "password:", VStr redacted)]
  /\ obfuscate_config redacted
       [(KStr "password", VDict [(KStr "nested", VStr "value")])]
     = Ok [(KStr "password", VDict [(KStr "nested", VStr "value")])].
Proof. repeat split; try (vm_compute; reflexivity). vm_compute. discriminate. Qed.

(** C2 (amended).  For every mapping entry whose key matches a pattern:
    a string value is replaced by the placeholder; a mapping value is not
    replaced but redacted recursively; a sequence value is processed element
    by element; any other scalar is left as it is. *)
Theorem C2_entry_under_sensitive_key ph (d r : dict) (i : nat) (k : string)
        (v : value) :
  obfuscate_config ph d = Ok r ->
  d !! i = Some (KStr k, v) ->
  is_sensitive k = true ->
  exists v', r !! i = Some (KStr k, v') /\
    match v with
    | VStr _ => v' = VStr ph
    | VDict sub =>
        exists sub', obfuscate_config ph sub = Ok sub' /\ v' = VDict sub'
    | VList l =>
        exists l', map_result (obfuscate_value ph) l = Ok l' /\ v' = VList l'
    | _ => v' = v
    end.
Proof.
  intros Hr Hi Hk.
  destruct (obfuscate_config_lookup _ _ _ _ _ _ Hr Hi) as (v' & Hv' & He).
  exists v'. split; [exact Hv'|].
  destruct v as [| b | n | s | l | sub].
  - cbn in He. congruence.
  - cbn in He. congruence.
  - cbn in He. congruence.
  - rewrite obfuscate_entry_ignores_text, Hk in He. congruence.
  - rewrite obfuscate_entry_list in He.
    destruct (map_result (obfuscate_value ph) l) as [l'|]; [|discriminate].
    exists l'. split; [reflexivity|]. cbn in He. congruence.
  - rewrite obfuscate_entry_dict in He.
    destruct (obfuscate_config ph sub) as [sub'|]; [|discriminate].
    exists sub'. split; [reflexivity|]. cbn in He. congruence.
Qed.

Lemma C2_entry_under_sensitive_key_witness :
  exists v', [(KStr "Api_Key :", VStr redacted)] !! 0%nat
               = Some (KStr "Api_Key :", v')
             /\ v' = VStr redacted.
Proof.
  exact (C2_entry_under_sensitive_key redacted
           [(KStr "Api_Key :", VStr "abc")]
           [(KStr "Api_Key :", VStr redacted)] 0 "Api_Key :" (VStr "abc")
           eq_refl eq_refl eq_refl).
Defined.

(** C3 (the code departs from the specification).  Under a key that matches no
    pattern, a string value whose own text matches a pattern is returned
    unchanged: for a string value the loop of [obfuscate_config] gives the
    key, never the value, to [re.search]. *)
Theorem C3_value_text_is_not_checked :
  key_sensitive (KStr "note") = false
  /\ is_sensitive "password: abc" = true
  /\ obfuscate_config redacted [(KStr "note", VStr "password: abc")]
     = Ok [(KStr "note", VStr "password: abc")].
Proof. repeat split; vm_compute; reflexivity. Qed.

(** C4.  For every document whose root is a mapping, the engine returns a
    document of the same shape: the same keys in the same order, lists of
    the same lengths, the same nesting and the same kind of node at every
    position, so that only scalars differ.  With string keys throughout the
    engine does return. *)
Theorem C4_shape_preserved ph (d : dict) :
  (str_keys (VDict d) = true -> exists r, obfuscate_config ph d = Ok r)
  /\ (forall r, obfuscate_config ph d = Ok r ->
                shape_of (VDict r) = shape_of (VDict d)).
Proof.
  split.
  - intros H. eexists. apply obfuscate_config_total, H.
  - intros r Hr. apply obfuscate_config_Ok in Hr as [_ ->].
    exact (proj1 (shape_redact ph (VDict d))).
Qed.

Lemma C4_shape_preserved_witness :
  exists r, obfuscate_config redacted sample_config = Ok r
            /\ shape_of (VDict r) = shape_of (VDict sample_config).
Proof.
  destruct (C4_shape_preserved redacted sample_config) as [Hret Hshape].
  destruct (Hret eq_refl) as [r Hr].
  exists r. split; [exact Hr|]. apply Hshape, Hr.
Defined.

(** C5.  Redaction is idempotent for every placeholder, also one that
    matches a pattern itself: running the engine on a document it returned
    returns that document again. *)
Theorem C5_idempotent ph (d : dict) :
  (str_keys (VDict d) = true -> exists r, obfuscate_config ph d = Ok r)
  /\ (forall r, obfuscate_config ph d = Ok r -> obfuscate_config ph r = Ok r).
Proof.
  split.
  - intros H. eexists. apply obfuscate_config_total, H.
  - intros r Hr. apply obfuscate_config_Ok in Hr as [Hm ->].
    rewrite obfuscate_config_spec.
    change (VDict (redact_config ph d)) with (redact_value ph (VDict d)).
    rewrite (proj1 (unmatchable_redact ph (VDict d))), Hm.
    f_equal.
    pose proof (proj1 (redact_idempotent ph (VDict d))) as Hi.
    cbn [redact_value] in Hi. injection Hi as Hi. exact Hi.
Qed.

Lemma C5_idempotent_witness :
  is_sensitive "token: gone" = true
  /\ exists r, obfuscate_config "token: gone" sample_config = Ok r
               /\ obfuscate_config "token: gone" r = Ok r.
Proof.
  split; [vm_compute; reflexivity|].
  destruct (C5_idempotent "token: gone" sample_config) as [Hret Hidem].
  destruct (Hret eq_refl) as [r Hr].
  exists r. split; [exact Hr|]. apply Hidem, Hr.
Defined.

(** C6, as stated, fails for the elements of a sequence that are not
    scalars: an element that is a mapping is redacted in its turn and does
    not pass through unchanged. *)
Lemma C6_mapping_element_is_redacted :
  obfuscate_config redacted
    [(KStr "users", VList [VDict [(KStr "token:", VStr "abc")]])]
  = Ok [(KStr "users", VList [VDict [(KStr "token:", VStr redacted)]])]
  /\ VDict [(KStr "token:", VStr redacted)] <> VDict [(KStr "token:", VStr "abc")].
Proof. split; [vm_compute; reflexivity|]. vm_compute. discriminate. Qed.

(** C6 (amended).  When a mapping value is a sequence, the result holds a
    sequence of the same length in which, position by position, a string
    element is replaced by the placeholder if a pattern matches its text and
    kept otherwise, any other scalar is kept, and an element that is a
    mapping or a sequence is redacted recursively.  In particular
    [["secret: abc", "normal text"]] becomes the placeholder followed by
    ["normal text"]. *)
Theorem C6_sequence_elements :
  (forall ph (d r : dict) (i : nat) (k : key) (l : list value),
     obfuscate_config ph d = Ok r ->
     d !! i = Some (k, VList l) ->
     exists l', r !! i = Some (k, VList l') /\ length l' = length l /\
       forall (j : nat) (x : value), l !! j = Some x ->
         exists x', l' !! j = Some x' /\
           match x with
           | VStr s => x' = if is_sensitive s then VStr ph else VStr s
           | VDict sub =>
               exists sub', obfuscate_config ph sub = Ok sub' /\ x' = VDict sub'
           | VList m =>
               exists m', map_result (obfuscate_value ph) m = Ok m'
                          /\ x' = VList m'
           | _ => x' = x
           end)
  /\ (forall ph (k : key),
        obfuscate_config ph [(k, VList [VStr "secret: abc"; VStr "normal text"])]
        = Ok [(k, VList [VStr ph; VStr "normal text"])]).
Proof.
  split.
  - intros ph d r i k l Hr Hi.
    destruct (obfuscate_config_lookup _ _ _ _ _ _ Hr Hi) as (v' & Hv' & He).
    rewrite obfuscate_entry_list in He.
    destruct (map_result (obfuscate_value ph) l) as [l'|] eqn:Hl;
      [|discriminate].
    cbn in He. injection He as <-.
    exists l'. split; [exact Hv'|].
    split; [eapply map_result_length, Hl|].
    intros j x Hj.
    destruct (map_result_lookup _ _ _ _ _ Hl Hj) as (x' & Hx' & Hf).
    exists x'. split; [exact Hx'|].
    destruct x as [| b | n | s | m | sub].
    + cbn in Hf. congruence.
    + cbn in Hf. congruence.
    + cbn in Hf. congruence.
    + rewrite obfuscate_value_str in Hf. congruence.
    + rewrite obfuscate_value_list in Hf.
      destruct (map_result (obfuscate_value ph) m) as [m'|]; [|discriminate].
      exists m'. split; [reflexivity|]. cbn in Hf. congruence.
    + rewrite obfuscate_value_dict in Hf.
      destruct (obfuscate_config ph sub) as [sub'|]; [|discriminate].
      exists sub'. split; [reflexivity|]. cbn in Hf. congruence.
  - intros ph k. unfold obfuscate_config. cbn [map_result fst snd].
    rewrite obfuscate_entry_list. cbn [map_result].
    rewrite !obfuscate_value_str.
    replace (is_sensitive "secret: abc") with true by (vm_compute; reflexivity).
    replace (is_sensitive "normal text") with false by (vm_compute; reflexivity).
    reflexivity.
Qed.

Lemma C6_sequence_elements_witness :
  exists l', [(KStr "notes", VList [VStr redacted; VStr "normal text"; VInt 7])]
               !! 0%nat = Some (KStr "notes", VList l')
             /\ length l' = 3%nat.
Proof.
  destruct (proj1 C6_sequence_elements redacted
              [(KStr "notes", VList [VStr "secret: abc"; VStr "normal text"; VInt 7])]
              [(KStr "notes", VList [VStr redacted; VStr "normal text"; VInt 7])]
              0%nat (KStr "notes")
              [VStr "secret: abc"; VStr "normal text"; VInt 7]
              eq_refl eq_refl) as (l' & Hl' & Hlen & _).
  exists l'. split; [exact Hl'|exact Hlen].
Defined.

(** C10, as stated, fails in its second half: a key that is not a string
    is reached without any error when its value is not a string, because
    only the keys of string values are given to [re.search]. *)
Lemma C10_non_string_key_without_error :
  str_keys (VDict [(KInt 1, VInt 2); (KNone, VDict [(KBool true, VList [])])])
  = false
  /\ obfuscate_config redacted
       [(KInt 1, VInt 2); (KNone, VDict [(KBool true, VList [])])]
     = Ok [(KInt 1, VInt 2); (KNone, VDict [(KBool true, VList [])])].
Proof. split; vm_compute; reflexivity. Qed.

(** C10 (amended).  For every alias-free document (a finite tree, nested
    within the recursion limit of the interpreter) whose root is a mapping:
    if every key is a string the engine returns normally; it raises an
    exception ([TypeError], not an error value) exactly when the traversal
    reaches an entry whose value is a string and whose key is not; a key
    that is not a string over any other value causes no error.  (A document
    in which an alias makes a mapping contain itself is not such a tree: on
    it the recursion does not end and Python raises [RecursionError], also
    when every key is a string.) *)
Theorem C10_raises_exactly_on_unmatchable_entry ph (d : dict) :
  (str_keys (VDict d) = true -> exists r, obfuscate_config ph d = Ok r)
  /\ (unmatchable (VDict d) = true -> obfuscate_config ph d = Raise TypeError)
  /\ (unmatchable (VDict d) = false -> exists r, obfuscate_config ph d = Ok r).
Proof.
  repeat split.
  - intros H. eexists. apply obfuscate_config_total, H.
  - intros H. rewrite obfuscate_config_spec, H. reflexivity.
  - intros H. rewrite obfuscate_config_spec, H. eexists. reflexivity.
Qed.

Lemma C10_raises_exactly_on_unmatchable_entry_witness :
  (exists r, obfuscate_config redacted sample_config = Ok r)
  /\ obfuscate_config redacted
       [(KStr "a", VList [VDict [(KInt 1, VStr "x")]])] = Raise TypeError
  /\ (exists r, obfuscate_config redacted [(KInt 1, VInt 2)] = Ok r).
Proof.
  split; [|split].
  - exact (proj1 (C10_raises_exactly_on_unmatchable_entry redacted sample_config)
                 eq_refl).
  - exact (proj1 (proj2 (C10_raises_exactly_on_unmatchable_entry redacted
                           [(KStr "a", VList [VDict [(KInt 1, VStr "x")]])]))
                 eq_refl).
  - exact (proj2 (proj2 (C10_raises_exactly_on_unmatchable_entry redacted
                           [(KInt 1, VInt 2)]))
                 eq_refl).
Defined.

(* ===================================================================== *)
(** ** Loading and the exit status *)
(* ===================================================================== *)

Section ProgramFacts.
Context {P : Platform}.
Variable a : args.

Lemma say_not_debug (lv : level) (msg : string) :
  lv <> DEBUG -> say a lv msg = [(lv, msg)].
Proof. destruct lv; intros H; [contradiction|reflexivity..]. Qed.

(** [main] after the existence check and a load that returned [config]. *)
Lemma main_after_load (w : world) (config : value) (l1 : log) :
  path_exists w (input_file a) = true ->
  load_config a w = (config, l1) ->
  truthy config = false ->
  exists l, main a w = (Return 1, w, l) /\ incl l1 l.
Proof.
  intros He Hl Ht. unfold main. rewrite He, Hl. cbn [negb]. rewrite Ht.
  eexists. split; [reflexivity|]. apply incl_appr, incl_refl.
Qed.

Lemma main_succeeds (w w' : world) (config obfuscated : value) (l1 l2 : log) :
  path_exists w (input_file a) = true ->
  load_config a w = (config, l1) ->
  truthy config = true ->
  obfuscate_document (placeholder a) config = Ok obfuscated ->
  save_config a w obfuscated = (true, w', l2) ->
  exists l, main a w = (Return 0, w', l).
Proof.
  intros He Hl Ht Ho Hs. unfold main.
  rewrite He, Hl. cbn [negb]. rewrite Ht, Ho, Hs. eauto.
Qed.

Lemma main_missing_input (w : world) :
  path_exists w (input_file a) = false ->
  exists l, main a w = (Return 1, w, l).
Proof. intros He. unfold main. rewrite He. cbn [negb]. eauto. Qed.

(** [main] returns 0 only after a load that gave a truthy document, a
    run of the engine that returned, and a save that reported success. *)
Lemma main_returns_0 (w w' : world) (l : log) :
  main a w = (Return 0, w', l) ->
  path_exists w (input_file a) = true
  /\ exists config obfuscated l2,
       fst (load_config a w) = config /\ truthy config = true
       /\ obfuscate_document (placeholder a) config = Ok obfuscated
       /\ save_config a w obfuscated = (true, w', l2).
Proof.
  unfold main. destruct (path_exists w (input_file a)); cbn [negb];
    [|discriminate].
  destruct (load_config a w) as [config l1].
  destruct (truthy config) eqn:Ht; [|discriminate].
  destruct (obfuscate_document (placeholder a) config) as [o|] eqn:Ho;
    [|discriminate].
  destruct (save_config a w o) as [[ok w2] l2] eqn:Hs.
  destruct ok; [|discriminate].
  intros [= <- <-]. split; [reflexivity|].
  exists config, o, l2. cbn. auto.
Qed.

End ProgramFacts.

(** C8.  When the content of the input file parses neither as YAML nor as
    JSON, [load_config] returns no document and reports the failure in the
    log at level ERROR, and [main] returns 1 without any write: the files
    are as they were. *)
Theorem C8_unrecognized_format {P : Platform} (a : args) (w : world)
        (content : string) :
  path_exists w (input_file a) = true ->
  read_text w (input_file a) = ReadOk content ->
  yaml_safe_load content = Malformed ->
  json_loads content = Malformed ->
  let failure :=
    (ERROR, "Failed to load " ++ input_file a ++ " as either YAML or JSON.") in
  (exists l, load_config a w = (VNone, l) /\ In failure l)
  /\ (exists l, main a w = (Return 1, w, l) /\ In failure l)
  /\ exit_code (fst (fst (main a w))) = 1%Z.
Proof.
  intros He Hr Hy Hj failure.
  assert (Hload : exists l, load_config a w = (VNone, l) /\ In failure l).
  { unfold load_config. rewrite Hr, Hy, Hj. eexists. split; [reflexivity|].
    apply in_or_app. right. rewrite say_not_debug by discriminate.
    left. reflexivity. }
  destruct Hload as (l1 & Hl1 & Hin).
  destruct (main_after_load a w VNone l1 He Hl1 eq_refl) as (l & Hm & Hincl).
  split; [eauto|]. split; [eauto|]. rewrite Hm. reflexivity.
Qed.

Lemma C8_unrecognized_format_witness :
  exists l, @main (sim []) run_args {["conf.yaml" := "{{"]}
            = (Return 1, {["conf.yaml" := "{{"]}, l).
Proof.
  destruct (@C8_unrecognized_format (sim []) run_args
              {["conf.yaml" := "{{"]} "{{") as (_ & (l & Hm & _) & _);
    try (vm_compute; reflexivity).
  exists l. exact Hm.
Defined.

(** C9 (the code departs from the specification).  An input file that exists and
    loads as the empty mapping makes [main] return 1, although nothing
    failed: the test [if config:] takes the empty mapping for a failed load,
    and nothing is written. *)
Theorem C9_empty_mapping_exits_1 {P : Platform} (a : args) (w : world)
        (content : string) :
  path_exists w (input_file a) = true ->
  read_text w (input_file a) = ReadOk content ->
  yaml_safe_load content = Parsed (VDict []) ->
  fst (load_config a w) = VDict []
  /\ (exists l, main a w = (Return 1, w, l))
  /\ exit_code (fst (fst (main a w))) = 1%Z.
Proof.
  intros He Hr Hy.
  assert (Hload : exists l, load_config a w = (VDict [], l)).
  { unfold load_config. rewrite Hr, Hy. eauto. }
  destruct Hload as (l1 & Hl1).
  destruct (main_after_load a w (VDict []) l1 He Hl1 eq_refl) as (l & Hm & _).
  split; [rewrite Hl1; reflexivity|]. split; [eauto|].
  rewrite Hm. reflexivity.
Qed.

Lemma C9_empty_mapping_exits_1_witness :
  exists l, @main (sim [("{}", VDict [])]) run_args {["conf.yaml" := "{}"]}
            = (Return 1, {["conf.yaml" := "{}"]}, l).
Proof.
  destruct (@C9_empty_mapping_exits_1 (sim [("{}", VDict [])]) run_args
              {["conf.yaml" := "{}"]} "{}") as (_ & Hm & _);
    try (vm_compute; reflexivity).
  exact Hm.
Defined.

(* ===================================================================== *)
(** ** The writer *)
(* ===================================================================== *)

Lemma key_leb_total (x y : key) :
  Yaml.key_leb x y = true \/ Yaml.key_leb y x = true.
Proof.
  destruct x as [s | n | b |], y as [s' | n' | b' |]; cbn;
    try (left; reflexivity); try (right; reflexivity);
    try apply String.leb_total;
    rewrite !Z.leb_le; lia.
Qed.

#[local] Instance entry_le_total : Total Yaml.entry_le.
Proof. intros x y. apply key_leb_total. Qed.

(** The mapping node that the representer builds for a dict: the nodes of
    its items, sorted by key when the keys are comparable, in dict order
    otherwise. *)
Lemma represent_dict_sorted (d : dict) :
  let nodes :=
    map (fun kv => (fst kv, Yaml.represent Yaml.default_sort_keys (snd kv))) d in
  exists d',
    Yaml.represent Yaml.default_sort_keys (VDict d) = VDict d'
    /\ Permutation d' nodes
    /\ (Yaml.comparable (map fst d) = true -> Sorted Yaml.entry_le d')
    /\ (Yaml.comparable (map fst d) = false -> d' = nodes).
Proof.
  intros nodes.
  assert (Hk : map fst nodes = map fst d).
  { unfold nodes. rewrite map_map. reflexivity. }
  exists (Yaml.sort_items nodes). split; [reflexivity|].
  unfold Yaml.sort_items. rewrite Hk.
  destruct (Yaml.comparable (map fst d)).
  - split; [apply merge_sort_Permutation|].
    split; [intros _; apply Sorted_merge_sort, _|discriminate].
  - split; [reflexivity|]. split; [discriminate|reflexivity].
Qed.

(** The JSON text of a dict with at least one item: the items in dict
    order, each on a line of its own, [indent] spaces deeper than the
    braces. *)
Lemma encode_dict_lines (indent level : nat) (e : key * value) (d : dict) :
  Json.encode indent level (VDict (e :: d)) =
  "{" ++ String nl (spaces (indent * S level))
  ++ String.concat ("," ++ String nl (spaces (indent * S level)))
       (map (fun kv => Json.encode_str (Json.key_text (fst kv)) ++ ": "
                       ++ Json.encode indent (S level) (snd kv)) (e :: d))
  ++ String nl (spaces (indent * level)) ++ "}".
Proof. reflexivity. Qed.

(** The JSON encoder as it runs against the text of [Json.encode]: when no
    integer is beyond the limit it finishes, and has written that text. *)
Lemma andthen_emit (x y : string) :
  JsonDump.andthen (JsonDump.emit x) (JsonDump.emit y) = JsonDump.emit (x ++ y).
Proof. reflexivity. Qed.

Lemma items_text {A} (opening separator : string)
      (step : A -> string -> JsonDump.stream) (g : A -> string)
      (first : bool) (x : A) (l : list A) :
  Forall (fun y => forall buf, step y buf = JsonDump.emit (buf ++ g y)) (x :: l) ->
  JsonDump.items opening separator step first (x :: l)
  = JsonDump.emit ((if first then opening else separator)
                   ++ String.concat separator (map g (x :: l))).
Proof.
  revert first x. induction l as [|y t IH]; intros first x H.
  - inversion H as [|? ? Hx _]; subst.
    cbn [JsonDump.items]. rewrite Hx. cbn [map String.concat].
    rewrite andthen_emit, append_nil_r_aux. reflexivity.
  - inversion H as [|? ? Hx Ht]; subst.
    change (JsonDump.items opening separator step first (x :: y :: t))
      with (JsonDump.andthen
              (step x (if first then opening else separator))
              (JsonDump.items opening separator step false (y :: t))).
    rewrite Hx, (IH false y Ht), andthen_emit.
    change (String.concat separator (map g (x :: y :: t)))
      with (g x ++ separator ++ String.concat separator (map g (y :: t))).
    rewrite string_app_assoc. reflexivity.
Qed.

Lemma intstr_fits (limit : nat) (n : Z) :
  JsonDump.fits limit (VInt n) = true ->
  JsonDump.intstr limit n = Some (Json.int_repr n).
Proof.
  cbn [JsonDump.fits]. unfold JsonDump.intstr.
  destruct (_ || _); [reflexivity|discriminate].
Qed.

Lemma iterencode_fits (limit indent : nat) (v : value) :
  forall level,
    JsonDump.fits limit v = true ->
    JsonDump.iterencode limit indent level v
    = JsonDump.emit (Json.encode indent level v).
Proof.
  induction v as [| b | n | s | l IH | d IH] using value_ind;
    intros level Hf.
  - reflexivity.
  - destruct b; reflexivity.
  - cbn [JsonDump.iterencode]. rewrite (intstr_fits _ _ Hf). reflexivity.
  - reflexivity.
  - destruct l as [|x t]; [reflexivity|].
    cbn [JsonDump.iterencode Json.encode].
    rewrite (items_text _ _ _ (Json.encode indent (S level))).
    + rewrite andthen_emit, !string_app_assoc. reflexivity.
    + cbn [JsonDump.fits] in Hf.
      pose proof (proj1 (List.forallb_forall _ _) Hf) as Hall.
      pose proof (proj1 (List.Forall_forall _ _) IH) as IHall.
      apply List.Forall_forall. intros y Hy buf.
      pose proof (IHall y Hy (S level) (Hall y Hy)) as Hy'.
      destruct y; try (rewrite Hy'; apply andthen_emit).
      rewrite (intstr_fits _ _ (Hall _ Hy)). reflexivity.
  - destruct d as [|e t]; [reflexivity|].
    cbn [JsonDump.iterencode Json.encode].
    rewrite (items_text _ _ _
               (fun kv => Json.encode_str (Json.key_text (fst kv)) ++ ": "
                          ++ Json.encode indent (S level) (snd kv))).
    + rewrite !andthen_emit, !string_app_assoc. reflexivity.
    + cbn [JsonDump.fits] in Hf.
      pose proof (proj1 (List.forallb_forall _ _) Hf) as Hall.
      pose proof (proj1 (List.Forall_forall _ _) IH) as IHall.
      apply List.Forall_forall. intros kv Hkv buf.
      pose proof (Hall kv Hkv) as Hfkv. cbv beta in Hfkv.
      pose proof (IHall kv Hkv (S level)) as IHkv. cbv beta in IHkv.
      assert (Hk : JsonDump.keystr limit (fst kv)
                   = Some (Json.key_text (fst kv))).
      { destruct (fst kv) as [k|n|b|]; try reflexivity.
        cbn [JsonDump.keystr Json.key_text] in *.
        unfold JsonDump.intstr in *.
        destruct (_ || _); [reflexivity|discriminate]. }
      rewrite Hk in Hfkv |- *. rewrite (IHkv Hfkv), andthen_emit.
      rewrite !string_app_assoc. reflexivity.
Qed.

Section WriterFacts.
Context {P : Platform}.
Variable a : args.

(** A target that ends in [.json] (and not in a YAML suffix) receives the
    JSON text of the document, indent 2, when the encoder finishes and
    the file can be written and closed. *)
Lemma save_config_json (w w1 w2 : world) (config : value) (text : string) :
  yaml_target a = false ->
  endswith (target a) ".json" = true ->
  open_write w (target a) = Opened w1 ->
  JsonDump.dump int_max_str_digits 2 config = (text, true) ->
  write_text w1 (target a) text = (w2, None) ->
  fst (save_config a w config) = (true, w2).
Proof.
  intros Hy Hj Ho Hd Hw. unfold save_config.
  rewrite Hy, Hj. unfold write_json. rewrite Ho, Hd. cbn [fst snd].
  unfold closing. rewrite Hw. reflexivity.
Qed.

(** When the encoder raises, [save_config] reports the failure; the
    file holds what had been written. *)
Lemma save_config_json_raised (w w1 : world) (config : value)
      (written : string) :
  yaml_target a = false ->
  endswith (target a) ".json" = true ->
  open_write w (target a) = Opened w1 ->
  JsonDump.dump int_max_str_digits 2 config = (written, false) ->
  exists e,
    save_config a w config
    = (false, fst (write_text w1 (target a) written), save_failed a e).
Proof.
  intros Hy Hj Ho Hd. unfold save_config.
  rewrite Hy, Hj. unfold write_json. rewrite Ho, Hd. cbn [fst snd].
  unfold closing. destruct (snd (write_text w1 (target a) written)); eauto.
Qed.

(** Any other target receives what the YAML emitter makes, with indent
    2, of the node tree with sorted mappings. *)
Lemma save_config_yaml (w w1 w2 : world) (config : value) (text : string) :
  yaml_target a = true \/ endswith (target a) ".json" = false ->
  open_write w (target a) = Opened w1 ->
  yaml_emit 2 (Yaml.represent Yaml.default_sort_keys config) = Dumped text ->
  write_text w1 (target a) text = (w2, None) ->
  fst (save_config a w config) = (true, w2).
Proof.
  intros H Ho He Hw. unfold save_config.
  destruct (yaml_target a) eqn:Hy.
  - unfold write_yaml, closing. rewrite Ho, He, Hw. reflexivity.
  - destruct H as [H|H]; [discriminate|]. rewrite H.
    unfold write_yaml, closing. rewrite Ho, He, Hw. reflexivity.
Qed.

(** The YAML branch sees a document through its node tree only. *)
Lemma save_config_yaml_tree (w : world) (config config' : value) :
  yaml_target a = true \/ endswith (target a) ".json" = false ->
  Yaml.represent Yaml.default_sort_keys config
  = Yaml.represent Yaml.default_sort_keys config' ->
  save_config a w config = save_config a w config'.
Proof.
  intros H Hr. unfold save_config.
  destruct (yaml_target a) eqn:Hy.
  - unfold write_yaml. rewrite Hr. reflexivity.
  - destruct H as [H|H]; [discriminate|]. rewrite H.
    unfold write_yaml. rewrite Hr. reflexivity.
Qed.

End WriterFacts.

(** C7 (the code departs from the specification).  The YAML branch of
    [save_config] calls [yaml.dump(config, f, indent=2)] without
    [sort_keys=False], so the items of every mapping are sorted by key
    before anything is written.  For the redacted document
    [{zone: eu, host: localhost}] the emitter is given [host] before
    [zone]: whatever the YAML branch writes for this document it also
    writes for the document with the two keys in the other order, and a
    save that succeeds leaves in the file the text that the emitter makes
    of the mapping with [host] first.  The JSON branch of the same function
    writes [zone] before [host]. *)
Theorem C7_yaml_output_sorts_keys :
  Yaml.represent Yaml.default_sort_keys zone_host = host_zone
  /\ keys_of host_zone <> keys_of zone_host
  /\ (forall (P : Platform) (a : args) (w : world),
        yaml_target a = true \/ endswith (target a) ".json" = false ->
        save_config a w zone_host = save_config a w host_zone)
  /\ (forall (P : Platform) (a : args) (w w1 w2 : world) (text : string),
        yaml_target a = true \/ endswith (target a) ".json" = false ->
        open_write w (target a) = Opened w1 ->
        yaml_emit 2 host_zone = Dumped text ->
        write_text w1 (target a) text = (w2, None) ->
        fst (save_config a w zone_host) = (true, w2))
  /\ JsonDump.dump 4300 2 zone_host
     = ("{" ++ String nl ("  " ++ quoted "zone" ++ ": " ++ quoted "eu" ++ ",")
        ++ String nl ("  " ++ quoted "host" ++ ": " ++ quoted "localhost")
        ++ String nl "}", true).
Proof.
  split; [vm_compute; reflexivity|].
  split; [vm_compute; discriminate|].
  split.
  { intros P a w H. apply save_config_yaml_tree; [exact H|].
    vm_compute. reflexivity. }
  split; [|vm_compute; reflexivity].
  intros P a w w1 w2 text H Ho He Hw.
  apply (save_config_yaml a w w1 w2 zone_host text H Ho); [|exact Hw].
  rewrite <- He. f_equal.
Qed.

Lemma C7_yaml_output_sorts_keys_witness :
  @save_config (sim []) run_args ∅ zone_host
  = @save_config (sim []) run_args ∅ host_zone.
Proof.
  apply (proj1 (proj2 (proj2 C7_yaml_output_sorts_keys)) (sim []) run_args ∅).
  left. vm_compute. reflexivity.
Defined.

(* ===================================================================== *)
(** ** Further properties: the patterns *)
(* ===================================================================== *)

(** X1.  A text of Latin-1 characters (every code point below 256)
    matches one of [self.patterns] under [re.search] with IGNORECASE
    exactly when it holds one of the six words, letter case aside, then
    optional white space and a colon, the word standing bare or between
    double quotes. *)
Theorem sensitive_text_reading (s : string) :
  is_sensitive s = true <->
  exists word, In word words
               /\ (bare_occurrence word s \/ quoted_occurrence word s).
Proof. exact (is_sensitive_spec s). Qed.

Lemma lower_idempotent (c : ascii) : lower (lower c) = lower c.
Proof. destruct c as [[] [] [] [] [] [] [] []]; vm_compute; reflexivity. Qed.

Lemma is_space_lower (c : ascii) : is_space (lower c) = is_space c.
Proof. destruct c as [[] [] [] [] [] [] [] []]; vm_compute; reflexivity. Qed.

Lemma is_newline_lower (c : ascii) : is_newline (lower c) = is_newline c.
Proof. destruct c as [[] [] [] [] [] [] [] []]; vm_compute; reflexivity. Qed.

Lemma deriv_lower (c : ascii) (r : regex) :
  deriv true (lower c) r = deriv true c r.
Proof.
  induction r as [| | a | | | r1 IH1 r2 IH2 | r1 IH1 r2 IH2 | r1 IH1 | r1 IH1];
    cbn [deriv]; try reflexivity.
  - unfold chr_matches. rewrite lower_idempotent. reflexivity.
  - rewrite is_space_lower. reflexivity.
  - rewrite is_newline_lower. reflexivity.
  - rewrite IH1, IH2. reflexivity.
  - rewrite IH1, IH2. reflexivity.
  - rewrite IH1. reflexivity.
  - exact IH1.
Qed.

Lemma match_prefix_fold_case (r : regex) (s : string) :
  match_prefix true r (fold_case s) = match_prefix true r s.
Proof.
  revert r. induction s as [|c s IH]; intros r; [reflexivity|].
  cbn [fold_case match_prefix]. rewrite deriv_lower, IH. reflexivity.
Qed.

Lemma search_fold_case (r : regex) (s : string) :
  search true r (fold_case s) = search true r s.
Proof.
  induction s as [|c s IH]; [reflexivity|].
  change (match_prefix true r (fold_case (String c s))
          || search true r (fold_case s)
          = match_prefix true r (String c s) || search true r s).
  rewrite match_prefix_fold_case, IH. reflexivity.
Qed.

Lemma is_sensitive_fold_case (s : string) :
  is_sensitive (fold_case s) = is_sensitive s.
Proof.
  unfold is_sensitive. induction patterns as [|p ps IH]; [reflexivity|].
  cbn [existsb]. rewrite search_fold_case, IH. reflexivity.
Qed.

(** X2.  Letter case never matters: two texts that differ only in the case
    of their letters are both sensitive or both not, so that as keys of a
    string value they lead to the same result. *)
Theorem letter_case_is_ignored (s s' : string) :
  fold_case s = fold_case s' ->
  is_sensitive s = is_sensitive s'
  /\ forall ph v, obfuscate_entry ph (KStr s) (VStr v)
                  = obfuscate_entry ph (KStr s') (VStr v).
Proof.
  intros H.
  assert (Hs : is_sensitive s = is_sensitive s').
  { rewrite <- (is_sensitive_fold_case s), <- (is_sensitive_fold_case s'), H.
    reflexivity. }
  split; [exact Hs|]. intros ph v.
  rewrite !obfuscate_entry_ignores_text, Hs. reflexivity.
Qed.

Lemma letter_case_is_ignored_witness :
  is_sensitive "Api_Key :" = is_sensitive "API_KEY :"
  /\ obfuscate_entry redacted (KStr "Api_Key :") (VStr "abc")
     = obfuscate_entry redacted (KStr "API_KEY :") (VStr "abc").
Proof.
  destruct (letter_case_is_ignored "Api_Key :" "API_KEY :" eq_refl) as [H1 H2].
  split; [exact H1|apply H2].
Defined.

(* ===================================================================== *)
(** ** Further properties: the engine *)
(* ===================================================================== *)

Lemma forallb_Forall_map {A} (f : A -> A) (p : A -> bool) (l : list A) :
  Forall (fun x => p x = true -> f x = x) l ->
  forallb p l = true -> map f l = l.
Proof.
  induction 1 as [|x t Hx _ IH]; cbn; [reflexivity|].
  intros H. apply andb_prop in H as [H1 H2].
  rewrite (Hx H1), (IH H2). reflexivity.
Qed.

Lemma forallb_Forall_false {A} (p q : A -> bool) (l : list A) :
  Forall (fun x => p x = true -> q x = false) l ->
  forallb p l = true -> existsb q l = false.
Proof.
  induction 1 as [|x t Hx _ IH]; cbn; [reflexivity|].
  intros H. apply andb_prop in H as [H1 H2].
  rewrite (Hx H1), (IH H2). reflexivity.
Qed.


(** Where no subject is sensitive, nothing raises and nothing changes. *)
Lemma calm_texts_fixed ph (v : value) :
  (texts_value calm v = true ->
   unmatchable v = false /\ redact_value ph v = v)
  /\ forall k, texts_entry calm k v = true ->
               unmatchable_entry k v = false /\ redact_entry ph k v = v.
Proof.
  induction v as [| b | n | s | l IH | d IH] using value_ind;
    try (split; [|intros k]; intros _; split; reflexivity).
  - split; [|intros k]; cbn; unfold calm, unmatchable_entry; cbn.
    + intros H. apply negb_true_iff in H. rewrite H. split; reflexivity.
    + destruct k as [s'| | |]; try discriminate. cbn.
      intros H. apply negb_true_iff in H. rewrite H. split; reflexivity.
  - assert (Hl : forallb (texts_value calm) l = true ->
                 existsb unmatchable l = false
                 /\ map (redact_value ph) l = l).
    { intros H. split.
      - revert H. apply forallb_Forall_false.
        eapply Forall_impl; [exact IH|]. intros x [Hx _] Hc.
        apply Hx, Hc.
      - revert H. apply forallb_Forall_map.
        eapply Forall_impl; [exact IH|]. intros x [Hx _] Hc.
        apply Hx, Hc. }
    split; [|intros k]; cbn; intros H; destruct (Hl H) as [H1 H2];
      (split; [exact H1|rewrite H2; reflexivity]).
  - assert (Hd : texts_config calm d = true ->
                 unmatchable (VDict d) = false /\ redact_config ph d = d).
    { intros H. split.
      - revert H. cbn. apply forallb_Forall_false.
        eapply Forall_impl; [exact IH|]. intros [k x] [_ Hx] Hc.
        apply (Hx k), Hc.
      - revert H. apply forallb_Forall_map.
        eapply Forall_impl; [exact IH|]. intros [k x] [_ Hx] Hc.
        cbn [fst snd] in *. rewrite (proj2 (Hx k Hc)). reflexivity. }
    split; [|intros k]; intros H; destruct (Hd H) as [H1 H2];
      (split; [exact H1|]);
      change (VDict (redact_config ph d) = VDict d); rewrite H2; reflexivity.
Qed.

(** X3.  An alias-free document (a finite tree, nested within the
    recursion limit of the interpreter) in which no subject of the search
    is sensitive (no key of a string value, no string element of a list, at
    any depth) is returned as it is, without an exception. *)
Theorem calm_document_is_returned ph (d : dict) :
  texts_config calm d = true -> obfuscate_config ph d = Ok d.
Proof.
  intros H.
  destruct (proj1 (calm_texts_fixed ph (VDict d)) H) as [Hm Hr].
  rewrite obfuscate_config_spec, Hm.
  change (redact_value ph (VDict d)) with (VDict (redact_config ph d)) in Hr.
  injection Hr as ->. reflexivity.
Qed.

Lemma calm_document_is_returned_witness :
  obfuscate_config redacted plain_config = Ok plain_config.
Proof. exact (calm_document_is_returned redacted plain_config eq_refl). Defined.






Lemma Forall2_map_r {A B} (R : A -> B -> Prop) (f : A -> B) (l : list A) :
  Forall (fun x => R x (f x)) l -> Forall2 R l (map f l).
Proof. induction 1; cbn; constructor; assumption. Qed.

Lemma redact_is_redaction ph (v : value) :
  redaction_of ph v (redact_value ph v)
  /\ forall k, redaction_of ph v (redact_entry ph k v).
Proof.
  induction v as [| b | n | s | l IH | d IH] using value_ind;
    try (split; [|intros k]; apply RKept).
  - split; [|intros k]; cbn.
    + destruct (is_sensitive s); constructor.
    + destruct (key_sensitive k); constructor.
  - assert (Hl : Forall2 (redaction_of ph) l (map (redact_value ph) l)).
    { apply Forall2_map_r. eapply Forall_impl; [exact IH|].
      intros x [Hx _]. exact Hx. }
    split; [|intros k]; cbn; apply RList, Hl.
  - assert (Hd : Forall2 (fun kv kv' => fst kv = fst kv'
                            /\ redaction_of ph (snd kv) (snd kv'))
                         d (redact_config ph d)).
    { apply Forall2_map_r. eapply Forall_impl; [exact IH|].
      intros [k x] [_ Hx]. cbn. split; [reflexivity|apply Hx]. }
    split; [|intros k]; apply RDict, Hd.
Qed.

(** X5.  The engine only ever puts the placeholder in the place of a
    string: in the document it returns, every key, every number, boolean
    and null, and the order and length of every mapping and list are those
    of the input, and a string is either the one of the input or the
    placeholder. *)
Theorem only_strings_become_placeholder ph (d r : dict) :
  obfuscate_config ph d = Ok r -> redaction_of ph (VDict d) (VDict r).
Proof.
  intros H. apply obfuscate_config_Ok in H as [_ ->].
  exact (proj1 (redact_is_redaction ph (VDict d))).
Qed.

Lemma only_strings_become_placeholder_witness :
  exists r, obfuscate_config redacted sample_config = Ok r
            /\ redaction_of redacted (VDict sample_config) (VDict r).
Proof.
  exists (redact_config redacted sample_config).
  assert (H : obfuscate_config redacted sample_config
              = Ok (redact_config redacted sample_config))
    by (vm_compute; reflexivity).
  split; [exact H|].
  exact (only_strings_become_placeholder redacted sample_config _ H).
Defined.

(* ===================================================================== *)
(** ** Further properties: loading, saving and the run *)
(* ===================================================================== *)

(** X7.  [load_config] never fails silently.  Either a parser produced a
    document (YAML first; JSON only after a YAML syntax error), which is
    returned with no ERROR record in the log; or no parser did, and [None]
    is returned with exactly one ERROR record. *)
Theorem load_config_reports {P : Platform} (a : args) (w : world) :
  let parsed (v : value) :=
    exists content,
      read_text w (input_file a) = ReadOk content
      /\ (yaml_safe_load content = Parsed v
          \/ (yaml_safe_load content = Malformed
              /\ json_loads content = Parsed v)) in
  (exists v, parsed v
             /\ fst (load_config a w) = v
             /\ error_count (snd (load_config a w)) = 0%nat)
  \/ ((forall v, ~ parsed v)
      /\ fst (load_config a w) = VNone
      /\ error_count (snd (load_config a w)) = 1%nat).
Proof.
  cbv zeta. unfold load_config, say, logging.
  destruct (read_text w (input_file a)) as [content| |e] eqn:Hr.
  - destruct (yaml_safe_load content) as [v| |e] eqn:Hy.
    + left. exists v. split; [exists content; auto|]. split; reflexivity.
    + destruct (json_loads content) as [v| |e] eqn:Hj.
      * left. exists v. split; [exists content; auto|].
        split; [reflexivity|]. destruct (debug a); reflexivity.
      * right. split.
        { intros v (c & [= <-] & [H|[_ H]]); congruence. }
        split; [reflexivity|]. destruct (debug a); reflexivity.
      * right. split.
        { intros v (c & [= <-] & [H|[_ H]]); congruence. }
        split; [reflexivity|]. destruct (debug a); reflexivity.
    + right. split.
      { intros v (c & [= <-] & [H|[H _]]); congruence. }
      split; reflexivity.
  - right. split; [intros v (c & H & _); discriminate|]. split; reflexivity.
  - right. split; [intros v (c & H & _); discriminate|]. split; reflexivity.
Qed.

Section RunFacts.
Context {P : Platform}.
Variable a : args.

Lemma error_count_app (l1 l2 : log) :
  error_count (l1 ++ l2)%list = (error_count l1 + error_count l2)%nat.
Proof. unfold error_count. rewrite List.filter_app, length_app. reflexivity. Qed.

Lemma error_count_debug (m : string) : error_count (say a DEBUG m) = 0%nat.
Proof. unfold say, logging. destruct (debug a); reflexivity. Qed.

(** When the output cannot be opened, nothing is written. *)
Lemma save_config_open_failed (w : world) (config : value) (e : string) :
  open_write w (target a) = OpenFailed e ->
  exists l, save_config a w config = (false, w, l)
            /\ In (ERROR, "Failed to save configuration to " ++ target a
                          ++ ": " ++ e) l.
Proof.
  intros Ho. unfold save_config, write_yaml, write_json, save_failed.
  rewrite Ho.
  destruct (yaml_target a); [|destruct (endswith (target a) ".json")];
    eexists; (split; [reflexivity|]).
  - left. reflexivity.
  - left. reflexivity.
  - apply in_or_app. right. left. reflexivity.
Qed.

End RunFacts.

(** X8.  A document that loads but is falsy (an empty file, [{}], [[]],
    [0], [false] or an empty string) ends the run with exit code 1 without
    any ERROR record and without a write. *)
Theorem falsy_document_fails_silently {P : Platform} (a : args) (w : world)
        (content : string) (v : value) :
  path_exists w (input_file a) = true ->
  read_text w (input_file a) = ReadOk content ->
  yaml_safe_load content = Parsed v
  \/ (yaml_safe_load content = Malformed /\ json_loads content = Parsed v) ->
  truthy v = false ->
  exists l, main a w = (Return 1, w, l) /\ error_count l = 0%nat.
Proof.
  intros He Hr Hp Ht. unfold main. rewrite He. cbn [negb].
  assert (Hl : exists l1, load_config a w = (v, l1) /\ error_count l1 = 0%nat).
  { unfold load_config. rewrite Hr.
    destruct Hp as [Hy|[Hy Hj]].
    - rewrite Hy. eexists. split; reflexivity.
    - rewrite Hy, Hj. eexists. split; [reflexivity|].
      rewrite error_count_app, error_count_debug. reflexivity. }
  destruct Hl as (l1 & -> & Hc). rewrite Ht.
  eexists. split; [reflexivity|].
  rewrite !error_count_app, !error_count_debug, Hc. reflexivity.
Qed.

Lemma falsy_document_fails_silently_witness :
  exists l, @main (sim [("", VNone)]) run_args {["conf.yaml" := ""]}
            = (Return 1, {["conf.yaml" := ""]}, l)
            /\ error_count l = 0%nat.
Proof.
  apply (@falsy_document_fails_silently (sim [("", VNone)]) run_args
           {["conf.yaml" := ""]} "" VNone);
    try (vm_compute; reflexivity).
  left. vm_compute. reflexivity.
Defined.

(** After the command line has been parsed, the exit status is 0 or 1, and
    it is 0 exactly when the input exists, the loaded document is truthy,
    the engine returns and [save_config] reports success. *)
Lemma exit_code_of_main {P : Platform} (a : args) (w : world) :
  (exit_code (fst (fst (main a w))) = 0%Z
   \/ exit_code (fst (fst (main a w))) = 1%Z)
  /\ (exit_code (fst (fst (main a w))) = 0%Z <->
      path_exists w (input_file a) = true
      /\ truthy (fst (load_config a w)) = true
      /\ exists obfuscated,
           obfuscate_document (placeholder a) (fst (load_config a w))
           = Ok obfuscated
           /\ fst (fst (save_config a w obfuscated)) = true).
Proof.
  unfold main.
  destruct (path_exists w (input_file a)); cbn [negb].
  2:{ cbn. split; [right; reflexivity|].
      split; [discriminate|intros [H _]; discriminate]. }
  destruct (load_config a w) as [config l1]. cbn [fst snd].
  destruct (truthy config).
  2:{ cbn. split; [right; reflexivity|].
      split; [discriminate|intros (_ & H & _); discriminate]. }
  destruct (obfuscate_document (placeholder a) config) as [o|e].
  2:{ cbn. split; [right; reflexivity|].
      split; [discriminate|intros (_ & _ & o & H & _); discriminate]. }
  destruct (save_config a w o) as [[ok w'] l2] eqn:Hs.
  destruct ok; cbn.
  - split; [left; reflexivity|].
    split; [|reflexivity]. intros _. repeat split.
    exists o. rewrite Hs. split; reflexivity.
  - split; [right; reflexivity|].
    split; [discriminate|].
    intros (_ & _ & o' & [= <-] & H). rewrite Hs in H. discriminate.
Qed.

(** X9.  The exit status of the program is 0, 1 or 2.  It is 2 exactly
    when [parse_args] ends the program on a usage error; it is 0 exactly
    when the help was asked for, or the command line was accepted, the
    input exists, the loaded document is truthy, the engine returns and
    [save_config] reports success; it is 1 otherwise.  A command line that
    is not accepted leaves the files as they are. *)
Theorem exit_status_of_program {P : Platform}
        (parse_args : arg_parser -> list string -> parsed)
        (argv : list string) (w : world) :
  let status := fst (fst (program parse_args argv w)) in
  (status = 0 \/ status = 1 \/ status = 2)%Z
  /\ (status = 2%Z <-> parse_args setup_argparse argv = UsageExit)
  /\ (status = 0%Z <->
      parse_args setup_argparse argv = HelpExit
      \/ exists a,
           parse_args setup_argparse argv = Namespace a
           /\ path_exists w (input_file a) = true
           /\ truthy (fst (load_config a w)) = true
           /\ exists obfuscated,
                obfuscate_document (placeholder a) (fst (load_config a w))
                = Ok obfuscated
                /\ fst (fst (save_config a w obfuscated)) = true)
  /\ ((forall a, parse_args setup_argparse argv <> Namespace a) ->
      snd (fst (program parse_args argv w)) = w).
Proof.
  cbv zeta. unfold program.
  destruct (parse_args setup_argparse argv) as [a| |] eqn:Hp; cbn [fst snd].
  - destruct (exit_code_of_main a w) as [H01 H0].
    split; [destruct H01 as [->| ->]; auto|].
    split.
    { split; [|discriminate]. intros H2. destruct H01 as [H|H];
        rewrite H in H2; discriminate. }
    split.
    { rewrite H0. split.
      - intros H. right. exists a. split; [reflexivity|exact H].
      - intros [H|(a' & [= <-] & H)]; [discriminate|exact H]. }
    intros H. exfalso. exact (H a eq_refl).
  - split; [auto|]. split; [split; discriminate|].
    split; [|reflexivity]. split; [auto|reflexivity].
  - split; [auto|]. split; [split; reflexivity|].
    split; [|reflexivity].
    split; [discriminate|]. intros [H|(a & H & _)]; discriminate.
Qed.

(** X10.  A truthy document that is not a mapping makes the run end in an
    uncaught [AttributeError], and a mapping that holds a string under a
    key that is not a string makes it end in an uncaught [TypeError]; in
    both cases nothing has been written. *)
Theorem uncaught_exceptions {P : Platform} (a : args) (w : world) :
  path_exists w (input_file a) = true ->
  truthy (fst (load_config a w)) = true ->
  (is_dict (fst (load_config a w)) = false ->
   fst (main a w) = (Uncaught AttributeError, w))
  /\ (is_dict (fst (load_config a w)) = true ->
      unmatchable (fst (load_config a w)) = true ->
      fst (main a w) = (Uncaught TypeError, w)).
Proof.
  intros He Ht. unfold main. rewrite He. cbn [negb].
  destruct (load_config a w) as [config l1]. cbn [fst snd] in *.
  rewrite Ht. split.
  - intros Hd. destruct config; try discriminate; reflexivity.
  - intros Hd Hu. destruct config as [| | | | |d]; try discriminate.
    cbn [obfuscate_document]. rewrite obfuscate_config_spec, Hu. reflexivity.
Qed.

Lemma uncaught_exceptions_witness :
  fst (@main (sim [("- a", VList [VStr "a"])]) run_args {["conf.yaml" := "- a"]})
  = (Uncaught AttributeError, {["conf.yaml" := "- a"]})
  /\ fst (@main (sim [("1: x", VDict [(KInt 1, VStr "x")])]) run_args
            {["conf.yaml" := "1: x"]})
     = (Uncaught TypeError, {["conf.yaml" := "1: x"]}).
Proof.
  split.
  - apply (@uncaught_exceptions (sim [("- a", VList [VStr "a"])]) run_args
             {["conf.yaml" := "- a"]}); vm_compute; reflexivity.
  - apply (@uncaught_exceptions (sim [("1: x", VDict [(KInt 1, VStr "x")])])
             run_args {["conf.yaml" := "1: x"]}); vm_compute; reflexivity.
Defined.

(** X11.  When the output file cannot be opened for writing, the run ends
    with exit code 1, the failure is in the log at level ERROR, and no file
    has changed, whatever the extension of the output. *)
Theorem unwritable_output_fails {P : Platform} (a : args) (w : world)
        (obfuscated : value) (e : string) :
  path_exists w (input_file a) = true ->
  truthy (fst (load_config a w)) = true ->
  obfuscate_document (placeholder a) (fst (load_config a w)) = Ok obfuscated ->
  open_write w (target a) = OpenFailed e ->
  exists l, main a w = (Return 1, w, l)
            /\ In (ERROR, "Failed to save configuration to " ++ target a
                          ++ ": " ++ e) l.
Proof.
  intros He Ht Ho Hw.
  destruct (save_config_open_failed a w obfuscated e Hw) as (l2 & Hs & Hin).
  unfold main. rewrite He. cbn [negb].
  destruct (load_config a w) as [config l1]. cbn [fst snd] in *.
  rewrite Ht, Ho, Hs. eexists. split; [reflexivity|].
  apply in_or_app. right. apply in_or_app. right. exact Hin.
Qed.

Lemma unwritable_output_fails_witness :
  exists l, @main (sim [("a: 1", VDict [(KStr "a", VInt 1)])]) slash_args
              {["conf.yaml" := "a: 1"]}
            = (Return 1, {["conf.yaml" := "a: 1"]}, l).
Proof.
  destruct (@unwritable_output_fails (sim [("a: 1", VDict [(KStr "a", VInt 1)])])
              slash_args {["conf.yaml" := "a: 1"]}
              (VDict [(KStr "a", VInt 1)]) "Is a directory")
    as (l & Hm & _); try (vm_compute; reflexivity).
  exists l. exact Hm.
Defined.

Section DebugFacts.
Context {P : Platform}.
Variable a : args.
Variable b : bool.

Lemma without_debug_app (l1 l2 : log) :
  without_debug (l1 ++ l2)%list = (without_debug l1 ++ without_debug l2)%list.
Proof. apply List.filter_app. Qed.

Lemma without_debug_say (lv : level) (m : string) :
  without_debug (say (with_debug b a) lv m) = without_debug (say a lv m).
Proof.
  unfold say, logging. cbn [debug with_debug].
  destruct lv; try reflexivity. destruct b, (debug a); reflexivity.
Qed.

Lemma load_config_debug (w : world) :
  fst (load_config (with_debug b a) w) = fst (load_config a w)
  /\ without_debug (snd (load_config (with_debug b a) w))
     = without_debug (snd (load_config a w)).
Proof.
  unfold load_config. cbn [input_file with_debug].
  destruct (read_text w (input_file a)) as [content| |e];
    [|split; [reflexivity|apply without_debug_say]..].
  destruct (yaml_safe_load content) as [v| |e];
    [split; [reflexivity|apply without_debug_say]| |
     split; [reflexivity|apply without_debug_say]].
  destruct (json_loads content) as [v| |e]; cbn [fst snd];
    (split; [reflexivity|]);
    rewrite !without_debug_app, !without_debug_say; reflexivity.
Qed.

Lemma closing_debug (written : world * option string)
      (raised : option string) (done done' : log) :
  without_debug done' = without_debug done ->
  fst (closing (with_debug b a) written raised done')
  = fst (closing a written raised done)
  /\ without_debug (snd (closing (with_debug b a) written raised done'))
     = without_debug (snd (closing a written raised done)).
Proof.
  intros H. unfold closing, save_failed.
  destruct (snd written), raised; cbn [fst snd];
    (split; [reflexivity|]); try exact H; apply without_debug_say.
Qed.

Lemma write_yaml_debug (w : world) (config : value) (done done' : log) :
  without_debug done' = without_debug done ->
  fst (write_yaml (with_debug b a) w config done')
  = fst (write_yaml a w config done)
  /\ without_debug (snd (write_yaml (with_debug b a) w config done'))
     = without_debug (snd (write_yaml a w config done)).
Proof.
  intros H. unfold write_yaml, save_failed.
  change (target (with_debug b a)) with (target a).
  destruct (open_write w (target a));
    [|cbn [fst snd]; split; [reflexivity|apply without_debug_say]].
  destruct (yaml_emit 2 _); apply closing_debug, H.
Qed.

Lemma write_json_debug (w : world) (config : value) (done done' : log) :
  without_debug done' = without_debug done ->
  fst (write_json (with_debug b a) w config done')
  = fst (write_json a w config done)
  /\ without_debug (snd (write_json (with_debug b a) w config done'))
     = without_debug (snd (write_json a w config done)).
Proof.
  intros H. unfold write_json, save_failed.
  change (target (with_debug b a)) with (target a).
  destruct (open_write w (target a));
    [|cbn [fst snd]; split; [reflexivity|apply without_debug_say]].
  apply closing_debug, H.
Qed.

Lemma save_config_debug (w : world) (config : value) :
  fst (save_config (with_debug b a) w config) = fst (save_config a w config)
  /\ without_debug (snd (save_config (with_debug b a) w config))
     = without_debug (snd (save_config a w config)).
Proof.
  unfold save_config, yaml_target.
  change (target (with_debug b a)) with (target a).
  destruct (endswith (target a) ".yaml" || endswith (target a) ".yml").
  - apply write_yaml_debug, without_debug_say.
  - destruct (endswith (target a) ".json").
    + apply write_json_debug, without_debug_say.
    + destruct (write_yaml_debug w config [] [] eq_refl) as [H1 H2].
      destruct (write_yaml (with_debug b a) w config []) as [[ok' w2'] l'].
      destruct (write_yaml a w config []) as [[ok w2] l].
      cbn [fst snd] in *. injection H1 as -> ->.
      split; [reflexivity|].
      rewrite !without_debug_app, without_debug_say, H2. reflexivity.
Qed.

End DebugFacts.

(** X12.  The option [--debug] changes nothing but the log: the outcome and
    the files are the same with and without it, and so are the records of
    the log above level DEBUG. *)
Theorem debug_only_adds_records {P : Platform} (a : args) (b : bool)
        (w : world) :
  fst (main (with_debug b a) w) = fst (main a w)
  /\ without_debug (snd (main (with_debug b a) w))
     = without_debug (snd (main a w)).
Proof.
  unfold main. cbn [input_file output_file placeholder with_debug].
  destruct (path_exists w (input_file a)); cbn [negb].
  2:{ cbn [fst snd]. split; [reflexivity|].
      rewrite !without_debug_app, !without_debug_say. reflexivity. }
  destruct (load_config_debug a b w) as [Hv Hl].
  destruct (load_config (with_debug b a) w) as [config' l1'].
  destruct (load_config a w) as [config l1]. cbn [fst snd] in Hv, Hl.
  subst config'.
  destruct (truthy config).
  2:{ cbn [fst snd]. split; [reflexivity|].
      rewrite !without_debug_app, !without_debug_say, Hl. reflexivity. }
  destruct (obfuscate_document (placeholder a) config) as [o|e].
  2:{ cbn [fst snd]. split; [reflexivity|].
      rewrite !without_debug_app, !without_debug_say, Hl. reflexivity. }
  destruct (save_config_debug a b w o) as [Hs Hl2].
  destruct (save_config (with_debug b a) w o) as [[ok' w2'] l2'].
  destruct (save_config a w o) as [[ok w2] l2]. cbn [fst snd] in Hs, Hl2.
  injection Hs as -> ->.
  destruct ok; cbn [fst snd]; (split; [reflexivity|]);
    rewrite !without_debug_app, !without_debug_say, Hl, Hl2; reflexivity.
Qed.

(** X13.  A run that succeeds leaves in the output file the serialization
    of the redacted document: for a non-empty mapping on which the engine
    returns, and an output that can be opened, written and closed, the exit
    code is 0 and the file holds the JSON text (indent 2) of the result when
    the path ends in [.json] and the encoder finishes, and otherwise the
    text the YAML emitter made of it. *)
Theorem successful_run_writes_redacted {P : Platform} (a : args)
        (w w1 w2 : world) (d r : dict) (text : string) :
  path_exists w (input_file a) = true ->
  fst (load_config a w) = VDict d ->
  d <> [] ->
  obfuscate_config (placeholder a) d = Ok r ->
  open_write w (target a) = Opened w1 ->
  write_text w1 (target a) text = (w2, None) ->
  (yaml_target a = false -> endswith (target a) ".json" = true ->
   JsonDump.dump int_max_str_digits 2 (VDict r) = (text, true) ->
   fst (main a w) = (Return 0, w2))
  /\ (yaml_target a = true \/ endswith (target a) ".json" = false ->
      yaml_emit 2 (Yaml.represent Yaml.default_sort_keys (VDict r))
      = Dumped text ->
      fst (main a w) = (Return 0, w2)).
Proof.
  intros He Hl Hd Hr Ho Hw.
  assert (Hmain : forall ok w' l2,
            save_config a w (VDict r) = (ok, w', l2) ->
            ok = true -> fst (main a w) = (Return 0, w')).
  { intros ok w' l2 Hs ->. unfold main. rewrite He. cbn [negb].
    destruct (load_config a w) as [config l1]. cbn [fst] in Hl. subst config.
    destruct d as [|e d]; [contradiction|]. cbn [truthy obfuscate_document].
    rewrite Hr. cbn [bind]. rewrite Hs. reflexivity. }
  split.
  - intros Hy Hj Hdump.
    pose proof (save_config_json a w w1 w2 (VDict r) text Hy Hj Ho Hdump Hw)
      as Hs.
    destruct (save_config a w (VDict r)) as [[ok w'] l2]. cbn [fst] in Hs.
    injection Hs as -> ->. eapply Hmain; reflexivity.
  - intros Hy Hemit.
    pose proof (save_config_yaml a w w1 w2 (VDict r) text Hy Ho Hemit Hw)
      as Hs.
    destruct (save_config a w (VDict r)) as [[ok w'] l2]. cbn [fst] in Hs.
    injection Hs as -> ->. eapply Hmain; reflexivity.
Qed.

Lemma successful_run_writes_redacted_witness :
  fst (@main (sim [("'token:': abc", VDict [(KStr "token:", VStr "abc")])])
         json_args {["conf.yaml" := "'token:': abc"]})
  = (Return 0,
     <["out.json" := Json.dumps 2 (VDict [(KStr "token:", VStr redacted)])]>
       (<["out.json" := ""]> {["conf.yaml" := "'token:': abc"]})).
Proof.
  refine (proj1 (@successful_run_writes_redacted
                   (sim [("'token:': abc", VDict [(KStr "token:", VStr "abc")])])
                   json_args {["conf.yaml" := "'token:': abc"]}
                   (<["out.json" := ""]> {["conf.yaml" := "'token:': abc"]})
                   _
                   [(KStr "token:", VStr "abc")]
                   [(KStr "token:", VStr redacted)]
                   (Json.dumps 2 (VDict [(KStr "token:", VStr redacted)]))
                   _ _ _ _ _ _) _ _ _);
    try discriminate; vm_compute; reflexivity.
Defined.

Lemma andthen_finished (x y : JsonDump.stream) :
  snd (JsonDump.andthen x y) = snd x && snd y.
Proof. unfold JsonDump.andthen. destruct x as [tx []]; reflexivity. Qed.

Lemma items_finished {A} (opening separator : string)
      (step : A -> string -> JsonDump.stream) (q : A -> bool)
      (first : bool) (l : list A) :
  Forall (fun y => forall buf, snd (step y buf) = q y) l ->
  snd (JsonDump.items opening separator step first l) = forallb q l.
Proof.
  intros H. revert first. induction H as [|x t Hx _ IH]; intros first.
  - reflexivity.
  - change (JsonDump.items opening separator step first (x :: t))
      with (JsonDump.andthen
              (step x (if first then opening else separator))
              (JsonDump.items opening separator step false t)).
    rewrite andthen_finished, Hx, IH. reflexivity.
Qed.

(** The encoder finishes exactly when no integer is beyond the limit. *)
Lemma iterencode_finished (limit indent : nat) (v : value) :
  forall level,
    snd (JsonDump.iterencode limit indent level v) = JsonDump.fits limit v.
Proof.
  induction v as [| b | n | s | l IH | d IH] using value_ind; intros level.
  - reflexivity.
  - destruct b; reflexivity.
  - cbn [JsonDump.iterencode JsonDump.fits].
    destruct (JsonDump.intstr limit n); reflexivity.
  - reflexivity.
  - destruct l as [|x t]; [reflexivity|].
    cbn [JsonDump.iterencode].
    rewrite andthen_finished, andb_true_r.
    apply items_finished.
    eapply Forall_impl; [exact IH|]. intros y Hy buf. cbv beta in Hy.
    destruct y; try (rewrite andthen_finished; apply Hy).
    cbn [JsonDump.fits]. destruct (JsonDump.intstr limit n); reflexivity.
  - destruct d as [|e t]; [reflexivity|].
    cbn [JsonDump.iterencode].
    rewrite !andthen_finished, andb_true_r. cbn [snd JsonDump.emit andb].
    apply (items_finished _ _ _
             (fun kv => match JsonDump.keystr limit (fst kv) with
                        | Some _ => JsonDump.fits limit (snd kv)
                        | None => false
                        end)).
    eapply Forall_impl; [exact IH|]. intros kv Hkv buf. cbv beta in Hkv.
    destruct (JsonDump.keystr limit (fst kv)); [|reflexivity].
    rewrite andthen_finished. apply Hkv.
Qed.

(** X15.  When the redacted document holds an integer, as a value or as a
    key, of more decimal digits than the limit of the interpreter allows
    (4300 unless configured), a run that writes JSON ends with exit code 1:
    [json.dump] raises in the middle of the output, the failure is logged
    at level ERROR, and the output file is left with the text written
    before the integer. *)
Theorem oversized_integer_fails_json {P : Platform} (a : args)
        (w w1 : world) (d r : dict) :
  path_exists w (input_file a) = true ->
  fst (load_config a w) = VDict d ->
  d <> [] ->
  obfuscate_config (placeholder a) d = Ok r ->
  yaml_target a = false ->
  endswith (target a) ".json" = true ->
  open_write w (target a) = Opened w1 ->
  JsonDump.fits int_max_str_digits (VDict r) = false ->
  exists l e,
    main a w
    = (Return 1,
       fst (write_text w1 (target a)
              (fst (JsonDump.dump int_max_str_digits 2 (VDict r)))), l)
    /\ In (ERROR, "Failed to save configuration to " ++ target a
                  ++ ": " ++ e) l.
Proof.
  intros He Hl Hd Hr Hy Hj Ho Hfit.
  destruct (JsonDump.dump int_max_str_digits 2 (VDict r))
    as [written finished] eqn:Hdump.
  assert (finished = false) as ->.
  { pose proof (iterencode_finished int_max_str_digits 2 (VDict r) 0) as H.
    unfold JsonDump.dump in Hdump. rewrite Hdump, Hfit in H. exact H. }
  destruct (save_config_json_raised a w w1 (VDict r) written Hy Hj Ho Hdump)
    as (e & Hs).
  unfold main. rewrite He. cbn [negb].
  destruct (load_config a w) as [config l1]. cbn [fst] in Hl. subst config.
  destruct d as [|x d]; [contradiction|]. cbn [truthy obfuscate_document].
  rewrite Hr. cbn [bind]. rewrite Hs. cbn [fst].
  eexists. exists e. split; [reflexivity|].
  apply in_or_app. right. apply in_or_app. right.
  unfold save_failed. rewrite say_not_debug by discriminate.
  left. reflexivity.
Qed.

Lemma oversized_integer_fails_json_witness :
  exists l w',
    @main (sim [("n: 0x1", huge_config)]) json_args {["conf.yaml" := "n: 0x1"]}
    = (Return 1, w', l).
Proof.
  destruct (@oversized_integer_fails_json (sim [("n: 0x1", huge_config)])
              json_args {["conf.yaml" := "n: 0x1"]}
              (<["out.json" := ""]> {["conf.yaml" := "n: 0x1"]})
              [(KStr "n", VInt (10 ^ 4300))] [(KStr "n", VInt (10 ^ 4300))])
    as (l & e & Hm & _).
  - vm_compute. reflexivity.
  - vm_compute. reflexivity.
  - intros H. discriminate H.
  - vm_compute. reflexivity.
  - vm_compute. reflexivity.
  - vm_compute. reflexivity.
  - vm_compute. reflexivity.
  - vm_compute. reflexivity.
  - exists l. eexists. exact Hm.
Defined.


(* ===================================================================== *)
(** ** Further properties: the choice of the output format *)
(* ===================================================================== *)

Lemma string_length_app (x y : string) :
  String.length (x ++ y) = (String.length x + String.length y)%nat.
Proof.
  induction x as [|c x IH]; [reflexivity|].
  change (S (String.length (x ++ y)) = S (String.length x + String.length y)).
  rewrite IH. reflexivity.
Qed.

Lemma substring_all (s : string) : substring 0 (String.length s) s = s.
Proof.
  induction s as [|c s IH]; [reflexivity|]. cbn. rewrite IH. reflexivity.
Qed.

Lemma substring_skip (pre s : string) (m : nat) :
  substring (String.length pre) m (pre ++ s) = substring 0 m s.
Proof.
  induction pre as [|c pre IH]; [reflexivity|].
  change (substring (S (String.length pre)) m (String c (pre ++ s))
          = substring 0 m s).
  cbn [substring]. exact IH.
Qed.

Lemma substring_split (s : string) (k : nat) :
  (k <= String.length s)%nat ->
  exists pre, s = pre ++ substring k (String.length s - k) s
              /\ String.length pre = k.
Proof.
  revert k. induction s as [|c s IH]; intros k Hk.
  - cbn in Hk. assert (k = 0%nat) as -> by lia. exists "". split; reflexivity.
  - destruct k as [|k].
    + exists "". split; [|reflexivity].
      change (String c s = substring 0 (String.length (String c s)) (String c s)).
      rewrite substring_all. reflexivity.
    + cbn in Hk. destruct (IH k) as (pre & Hs & Hlen); [lia|].
      exists (String c pre). split; [|cbn; rewrite Hlen; reflexivity].
      change (String c s = String c (pre ++ substring k (String.length s - k) s)).
      rewrite <- Hs. reflexivity.
Qed.

(** [endswith] is the suffix test. *)
Lemma endswith_spec (s suffix : string) :
  endswith s suffix = true <-> exists pre, s = pre ++ suffix.
Proof.
  unfold endswith. rewrite andb_true_iff, Nat.leb_le, String.eqb_eq. split.
  - intros [Hle Hsub].
    destruct (substring_split s (String.length s - String.length suffix))
      as (pre & Hs & _); [lia|].
    replace (String.length s - (String.length s - String.length suffix))%nat
      with (String.length suffix) in Hs by lia.
    rewrite Hsub in Hs. eauto.
  - intros (pre & ->). rewrite string_length_app. split; [lia|].
    replace (String.length pre + String.length suffix - String.length suffix)%nat
      with (String.length pre) by lia.
    rewrite substring_skip. apply substring_all.
Qed.

Lemma string_app_inj_tail (p1 p2 x y : string) :
  p1 ++ x = p2 ++ y -> String.length x = String.length y -> x = y.
Proof.
  revert p2. induction p1 as [|c p1 IH]; intros p2 H Hlen.
  - destruct p2 as [|c2 p2]; [exact H|].
    exfalso. apply (f_equal String.length) in H.
    change (String.length x = String.length (String c2 (p2 ++ y))) in H.
    cbn in H. rewrite string_length_app in H. lia.
  - destruct p2 as [|c2 p2].
    + exfalso. apply (f_equal String.length) in H.
      change (String.length (String c (p1 ++ x)) = String.length y) in H.
      cbn in H. rewrite string_length_app in H. lia.
    + change (String c (p1 ++ x) = String c2 (p2 ++ y)) in H.
      injection H as _ H. exact (IH p2 H Hlen).
Qed.

(** X14.  The format of the output depends on the end of its path alone:
    JSON is written exactly when the path ends in [.json]; every other path
    gets YAML; and no path is both. *)
Theorem format_by_suffix {P : Platform} (a : args) (w : world)
        (config : value) :
  ((exists pre, target a = pre ++ ".json") ->
   yaml_target a = false
   /\ save_config a w config
      = write_json a w config
          (say a INFO ("Successfully saved obfuscated config to " ++ target a
                       ++ " as JSON.")))
  /\ ((forall pre, target a <> pre ++ ".json") ->
      fst (save_config a w config) = fst (write_yaml a w config [])).
Proof.
  split.
  - intros Hj.
    assert (Hy : yaml_target a = false).
    { unfold yaml_target. apply orb_false_iff.
      destruct Hj as (pre & Hj).
      split; apply not_true_is_false; intros H;
        apply endswith_spec in H as (pre' & H); rewrite Hj in H.
      - apply string_app_inj_tail in H; [discriminate|reflexivity].
      - replace (pre ++ ".json") with ((pre ++ ".") ++ "json") in H
          by (rewrite string_app_assoc; reflexivity).
        apply string_app_inj_tail in H; [discriminate|reflexivity]. }
    split; [exact Hy|].
    unfold save_config. rewrite Hy.
    rewrite (proj2 (endswith_spec (target a) ".json") Hj). reflexivity.
  - intros Hn. unfold save_config.
    assert (Hj : endswith (target a) ".json" = false).
    { apply not_true_is_false. intros H.
      apply endswith_spec in H as (pre & H). exact (Hn pre H). }
    rewrite Hj. unfold write_yaml, closing.
    destruct (yaml_target a); destruct (open_write w (target a));
      try reflexivity;
      destruct (yaml_emit 2 _) as [text|written e];
      try destruct (snd (write_text _ (target a) text));
      try destruct (snd (write_text _ (target a) written));
      reflexivity.
Qed.

Lemma format_by_suffix_witness :
  yaml_target json_args = false.
Proof.
  exact (proj1 (proj1 (@format_by_suffix (sim []) json_args ∅ VNone)
                      (ex_intro _ "out" eq_refl))).
Defined.
